(** * Prompt Companion: the conversation controller of [frontend/src/App.js]

    A shallow embedding of the React component [App]: its state cells,
    its event handlers as state transformers, the effects React runs at
    each commit, and the [TypingAnimation] timer.  JavaScript strings are
    sequences of UTF-16 code units, the [chatHistory] object is a finite
    map from section ids to message arrays. *)

From Stdlib Require Import NArith Ascii String.
From stdpp Require Import gmap list strings.

Open Scope N_scope.

(** ** JavaScript strings *)

Module Js.

(** A string is its sequence of UTF-16 code units. *)
Definition str : Type := list N.

(** A literal of the source whose characters are all ASCII. *)
Definition lit (s : string) : str :=
  map N_of_ascii (list_ascii_of_string s).

(** ECMAScript [WhiteSpace] and [LineTerminator] code units, the ones
    [String.prototype.trim] strips. *)
Definition isWhiteSpace (c : N) : bool :=
  (c =? 9) || (c =? 10) || (c =? 11) || (c =? 12) || (c =? 13)
  || (c =? 32) || (c =? 160) || (c =? 5760)
  || ((8192 <=? c) && (c <=? 8202))
  || (c =? 8232) || (c =? 8233) || (c =? 8239) || (c =? 8287)
  || (c =? 12288) || (c =? 65279).

Fixpoint trimStart (s : str) : str :=
  match s with
  | c :: s' => if isWhiteSpace c then trimStart s' else s
  | [] => []
  end.

Definition trimEnd (s : str) : str := rev (trimStart (rev s)).

Definition trim (s : str) : str := trimEnd (trimStart s).

(** Truthiness of a string: only the empty string is falsy. *)
Definition truthy (s : str) : bool :=
  match s with [] => false | _ :: _ => true end.

(** [Array.prototype.join] on an array of strings: the accumulator
    starts empty, the separator goes before every element but the
    first. *)
Fixpoint join_from (first : bool) (sep : str) (acc : str) (l : list str) : str :=
  match l with
  | [] => acc
  | x :: l' =>
      join_from false sep ((if first then acc else acc ++ sep) ++ x) l'
  end.

Definition join (sep : str) (l : list str) : str := join_from true sep [] l.

(** [toLowerCase] on the code units A..Z; the other code units of the
    catalog's names have no lower-case form of their own. *)
Definition toLowerCase (s : str) : str :=
  map (fun c => if (65 <=? c) && (c <=? 90) then c + 32 else c) s.

End Js.

Abbreviation str := Js.str.
Abbreviation lit := Js.lit.

(** [!prompt.trim()] *)
Definition blank (s : str) : bool := negb (Js.truthy (Js.trim s)).

(** ** The section catalog *)

Record section := {
  s_id : str;
  s_name : str;
  s_color : str;
  s_examples : list str
}.

Definition health : section :=
  {| s_id := lit "health"; s_name := lit "Health"; s_color := lit "bg-green-500";
     s_examples := [lit "How to boost immunity?"; lit "Best exercises for beginners";
                    lit "Healthy meal ideas"] |}.

Definition banking : section :=
  {| s_id := lit "banking"; s_name := lit "Banking"; s_color := lit "bg-yellow-500";
     s_examples := [lit "Investment tips"; lit "Credit card advice";
                    lit "Saving strategies"] |}.

Definition general : section :=
  {| s_id := lit "general"; s_name := lit "General"; s_color := lit "bg-blue-500";
     s_examples := [lit "Explain quantum physics"; lit "Travel recommendations";
                    lit "Cooking tips"] |}.

Definition movies : section :=
  {| s_id := lit "movies"; s_name := lit "Movies"; s_color := lit "bg-purple-500";
     s_examples := [lit "Best sci-fi movies"; lit "Movie recommendations";
                    lit "Film analysis"] |}.

Definition music : section :=
  {| s_id := lit "music"; s_name := lit "Music"; s_color := lit "bg-pink-500";
     s_examples := [lit "Music recommendations"; lit "Artist analysis";
                    lit "Genre exploration"] |}.

Definition sections : list section := [health; banking; general; movies; music].

(** [sections.find(s => s.id === wanted)]; [wanted] is [None] when the
    value compared with is [undefined] or [null]. *)
Definition find_section (wanted : option str) : option section :=
  List.find (fun s => bool_decide (Some (s_id s) = wanted)) sections.

(** ** Messages and the component state *)

Inductive role := user | assistant.

Record message := {
  m_role : role;
  content : str;
  timestamp : str
}.

(** The payload of a successful reply, at the shape the handler reads:
    [data.response], the truth value of [data.redirect], and
    [data.section] when it is a string. *)
Record data := {
  response : str;
  redirect : bool;
  d_section : option str
}.

Record AppState := {
  currentSection : option section;
  prompt : str;
  result : option data;
  isLoading : bool;
  error : option str;
  toast : option str;
  chatHistory : gmap str (list message);
  isTyping : bool
}.

(** The state of the first render: the arguments of the [useState] calls. *)
Definition initialState : AppState :=
  {| currentSection := None; prompt := []; result := None; isLoading := false;
     error := None; toast := None; chatHistory := ∅; isTyping := false |}.

Definition setCurrentSection (v : option section) (st : AppState) : AppState :=
  {| currentSection := v; prompt := prompt st; result := result st;
     isLoading := isLoading st; error := error st; toast := toast st;
     chatHistory := chatHistory st; isTyping := isTyping st |}.

Definition setPrompt (v : str) (st : AppState) : AppState :=
  {| currentSection := currentSection st; prompt := v; result := result st;
     isLoading := isLoading st; error := error st; toast := toast st;
     chatHistory := chatHistory st; isTyping := isTyping st |}.

Definition setResult (v : option data) (st : AppState) : AppState :=
  {| currentSection := currentSection st; prompt := prompt st; result := v;
     isLoading := isLoading st; error := error st; toast := toast st;
     chatHistory := chatHistory st; isTyping := isTyping st |}.

Definition setIsLoading (v : bool) (st : AppState) : AppState :=
  {| currentSection := currentSection st; prompt := prompt st; result := result st;
     isLoading := v; error := error st; toast := toast st;
     chatHistory := chatHistory st; isTyping := isTyping st |}.

Definition setError (v : option str) (st : AppState) : AppState :=
  {| currentSection := currentSection st; prompt := prompt st; result := result st;
     isLoading := isLoading st; error := v; toast := toast st;
     chatHistory := chatHistory st; isTyping := isTyping st |}.

Definition setToast (v : option str) (st : AppState) : AppState :=
  {| currentSection := currentSection st; prompt := prompt st; result := result st;
     isLoading := isLoading st; error := error st; toast := v;
     chatHistory := chatHistory st; isTyping := isTyping st |}.

(** [setChatHistory(prev => f prev)]: the updater form, applied to the
    latest value of the cell. *)
Definition setChatHistory (f : gmap str (list message) → gmap str (list message))
    (st : AppState) : AppState :=
  {| currentSection := currentSection st; prompt := prompt st; result := result st;
     isLoading := isLoading st; error := error st; toast := toast st;
     chatHistory := f (chatHistory st); isTyping := isTyping st |}.

Definition setIsTyping (v : bool) (st : AppState) : AppState :=
  {| currentSection := currentSection st; prompt := prompt st; result := result st;
     isLoading := isLoading st; error := error st; toast := toast st;
     chatHistory := chatHistory st; isTyping := v |}.

(** [h[id] || []]: an array is truthy even when empty, so only a missing
    entry falls back to the fresh empty array. *)
Definition entry_or_empty (h : gmap str (list message)) (id : str) : list message :=
  default [] (h !! id).

(** The transcript a section shows: [chatHistory[id] || []]. *)
Definition snapshot (st : AppState) (id : str) : list message :=
  entry_or_empty (chatHistory st) id.

(** [{...prev, [id]: [...(prev[id] || []), ...ms]}] *)
Definition append_to (id : str) (ms : list message)
    (prev : gmap str (list message)) : gmap str (list message) :=
  <[id := entry_or_empty prev id ++ ms]> prev.

(** ** The event handlers

    The timers that remove a toast some seconds later and the ones that
    scroll the view are left out: they write the [toast] cell and the
    DOM only. *)

Definition handleSectionSelect (s : section) (st : AppState) : AppState :=
  setError None (setResult None (setPrompt [] (setCurrentSection (Some s) st))).

Definition handleBackToSections (st : AppState) : AppState :=
  setError None (setResult None (setPrompt [] (setCurrentSection None st))).

Definition clearChat (st : AppState) : AppState :=
  let st1 :=
    match currentSection st with
    | Some cur => setChatHistory (fun prev => <[s_id cur := []]> prev) st
    | None => st
    end in
  setToast (Some (lit "Chat cleared")) (setResult None st1).

Definition tryExample (examplePrompt : str) (st : AppState) : AppState :=
  setPrompt examplePrompt st.

(** *** [handleSubmit]

    The handler runs up to its first [await] and is resumed when the
    [fetch] settles.  What it keeps across the [await] are the constants
    of its closure. *)

Record request := {
  req_prompt : str;
  req_current_section : str
}.

Record suspended := {
  k_currentSection : section;
  k_userMessage : message;
  k_request : request
}.

(** How the awaited calls settle. *)
Inductive fetch_outcome :=
| FetchRejects            (* [fetch] rejects: the transport failed *)
| ResNotOk                (* [res.ok] is false *)
| JsonRejects             (* [res.json()] rejects: the body is not JSON *)
| Json (d : data).        (* [res.json()] resolves to [d] *)

Definition connection_error : str :=
  lit "Failed to connect to the server. Make sure the backend is running!".

(** The toast of a redirect; its last four code units are the ones the
    source file holds after the word [section]. *)
Definition switched_toast (previousSection newSection : section) : str :=
  lit "Switched from " ++ s_name previousSection ++ lit " to "
  ++ s_name newSection ++ lit " section " ++ [240; 376; 353; 8364].

(** The synchronous part.  [None]: the handler dereferences a null
    [currentSection] (the form that calls it is rendered only while a
    section is selected).  [Some (st, None)]: the early [return].
    [Some (st', Some k)]: the request [k_request k] was issued and the
    handler waits for it.  [now] is [new Date().toISOString()]. *)
Definition handleSubmit_begin (now : str) (st : AppState)
    : option (AppState * option suspended) :=
  if blank (prompt st) then Some (st, None)
  else
    match currentSection st with
    | None => None
    | Some cur =>
        let currentPrompt := prompt st in
        let userMessage :=
          {| m_role := user; content := currentPrompt; timestamp := now |} in
        let st1 := setPrompt [] (setError None (setIsTyping true (setIsLoading true st))) in
        let st2 := setChatHistory (append_to (s_id cur) [userMessage]) st1 in
        Some (st2, Some {| k_currentSection := cur; k_userMessage := userMessage;
                           k_request := {| req_prompt := currentPrompt;
                                           req_current_section := s_id cur |} |})
    end.

(** The [try] block after the [await]s; [inr st'] when it throws, with
    the state updates made before the throw. *)
Definition handleSubmit_try (k : suspended) (o : fetch_outcome) (now : str)
    (st : AppState) : AppState + AppState :=
  match o with
  | FetchRejects | ResNotOk | JsonRejects => inr st
  | Json d =>
      if redirect d then
        let previousSection := k_currentSection k in
        let newSection := find_section (d_section d) in
        let st1 := setCurrentSection newSection st in
        match newSection with
        | None => inr st1          (* [newSection.name] on [undefined] *)
        | Some new =>
            let st2 := setToast (Some (switched_toast previousSection new)) st1 in
            let aiMessage :=
              {| m_role := assistant; content := response d; timestamp := now |} in
            let st3 :=
              setChatHistory (append_to (s_id new) [k_userMessage k; aiMessage]) st2 in
            inl (setResult (Some d) st3)
        end
      else
        let aiMessage :=
          {| m_role := assistant; content := response d; timestamp := now |} in
        let st1 :=
          setChatHistory
            (append_to (s_id (k_currentSection k)) [k_userMessage k; aiMessage]) st in
        inl (setResult (Some d) st1)
  end.

(** [try ... catch ... finally] *)
Definition handleSubmit_resume (k : suspended) (o : fetch_outcome) (now : str)
    (st : AppState) : AppState :=
  let st1 :=
    match handleSubmit_try k o now st with
    | inl st' => st'
    | inr st' => setError (Some connection_error) st'
    end in
  setIsTyping false (setIsLoading false st1).

(** A whole call with nothing else happening while the request is in
    flight: [t1] and [t2] are the clock readings of the two messages. *)
Definition handleSubmit (t1 : str) (o : fetch_outcome) (t2 : str) (st : AppState)
    : option AppState :=
  match handleSubmit_begin t1 st with
  | None => None
  | Some (st1, None) => Some st1
  | Some (st1, Some k) => Some (handleSubmit_resume k o t2 st1)
  end.

(** The submit button: [disabled={isLoading || !prompt.trim()}]. *)
Definition submitDisabled (st : AppState) : bool :=
  isLoading st || blank (prompt st).

(** Submitting the form through its button: a disabled button submits
    nothing. *)
Definition clickSubmit (now : str) (st : AppState)
    : option (AppState * option suspended) :=
  if submitDisabled st then Some (st, None) else handleSubmit_begin now st.

(** ** Durable storage and the effects of [App]

    [localStorage] holds two items.  The item [chatHistory] is kept here
    as the value [JSON.parse] gives back for it; [None] is a missing item
    ([getItem] returns [null]). *)

Record Storage := {
  ls_currentSection : option str;
  ls_chatHistory : option (gmap str (list message))
}.

(** The loop of the mount effect: [sections.forEach(sec => { if
    (parsedHistory[sec.id]) filteredHistory[sec.id] = parsedHistory[sec.id] })],
    every stored entry being an array, hence truthy. *)
Definition filterHistory (parsedHistory : gmap str (list message))
    : gmap str (list message) :=
  fold_left
    (fun filteredHistory sec =>
       match parsedHistory !! s_id sec with
       | Some v => <[s_id sec := v]> filteredHistory
       | None => filteredHistory
       end)
    sections ∅.

(** The effect with the empty dependency array: it runs once, after the
    first render. *)
Definition loadEffect (ls : Storage) (st : AppState) : AppState :=
  let st1 :=
    match ls_currentSection ls with
    | Some savedSection =>
        if Js.truthy savedSection then
          match find_section (Some savedSection) with
          | Some sec => setCurrentSection (Some sec) st
          | None => st
          end
        else st
    | None => st
    end in
  match ls_chatHistory ls with
  | Some parsedHistory => setChatHistory (fun _ => filterHistory parsedHistory) st1
  | None => st1
  end.

(** The effect on [currentSection]. *)
Definition saveSectionEffect (st : AppState) (ls : Storage) : Storage :=
  match currentSection st with
  | Some cur => {| ls_currentSection := Some (s_id cur);
                   ls_chatHistory := ls_chatHistory ls |}
  | None => ls
  end.

(** The effect on [chatHistory]. *)
Definition saveChatEffect (st : AppState) (ls : Storage) : Storage :=
  {| ls_currentSection := ls_currentSection ls;
     ls_chatHistory := Some (chatHistory st) |}.

(** What React does with the two saving effects when it commits a
    render of state [st].  An effect is run again when its dependency
    changed; both write a function of the dependency alone, so running
    them at every commit stores the same items. *)
Definition commit (st : AppState) (ls : Storage) : Storage :=
  saveChatEffect st (saveSectionEffect st ls).

(** Mounting the component: the first render has the initial state; its
    three effects run in source order, the saving ones still seeing the
    initial state; the state set by the first one is rendered and
    committed next. *)
Definition mount (ls : Storage) : AppState * Storage :=
  let st := loadEffect ls initialState in
  (st, commit st (commit initialState ls)).

(** The operations a user performs on a mounted component, each followed
    by the commit of the render it causes; a submission commits once
    when the request leaves and once when it settles. *)
Inductive operation :=
| Submit (t1 : str) (o : fetch_outcome) (t2 : str)
| Clear
| Select (s : section)
| Back.

Definition perform (op : operation) (w : AppState * Storage)
    : option (AppState * Storage) :=
  let '(st, ls) := w in
  match op with
  | Submit t1 o t2 =>
      match handleSubmit_begin t1 st with
      | None => None
      | Some (st1, None) => Some (st1, ls)
      | Some (st1, Some k) =>
          let ls1 := commit st1 ls in
          let st2 := handleSubmit_resume k o t2 st1 in
          Some (st2, commit st2 ls1)
      end
  | Clear => let st1 := clearChat st in Some (st1, commit st1 ls)
  | Select s => let st1 := handleSectionSelect s st in Some (st1, commit st1 ls)
  | Back => let st1 := handleBackToSections st in Some (st1, commit st1 ls)
  end.

(** ** What is on screen

    The component returns the section picker when no section is
    selected, and the chat view otherwise; only the chat view has the
    error and toast banners. *)
Inductive screen :=
| SectionPicker
| ChatView (cur : section) (messages : list message)
    (shownError shownToast : option str).

Definition render (st : AppState) : screen :=
  match currentSection st with
  | None => SectionPicker
  | Some cur =>
      ChatView cur (entry_or_empty (chatHistory st) (s_id cur))
        (if default false (Js.truthy <$> error st) then error st else None)
        (if default false (Js.truthy <$> toast st) then toast st else None)
  end.

(** The error banner on screen, if any. *)
Definition shown_error (st : AppState) : option str :=
  match render st with
  | SectionPicker => None
  | ChatView _ _ e _ => e
  end.

(** ** Export as text *)

Record download := {
  file_name : str;
  file_content : str
}.

Section ExportText.

(** [new Date(ts).toLocaleString()] for the locale and time zone of the
    browser, as a function of the stored timestamp. *)
Variable toLocaleString : str → str.

(** The template literal of [exportAsTXT]. *)
Definition export_line (msg : message) : str :=
  lit "[" ++ toLocaleString (timestamp msg) ++ lit "] "
  ++ (match m_role msg with user => lit "You" | assistant => lit "AI" end)
  ++ lit ": " ++ content msg.

(** [exportAsTXT]: the new state and the file handed to the browser,
    if any. *)
Definition exportAsTXT (st : AppState) : AppState * option download :=
  match currentSection st with
  | None => (st, None)
  | Some cur =>
      let sectionHistory := entry_or_empty (chatHistory st) (s_id cur) in
      let text := Js.join [10; 10] (map export_line sectionHistory) in
      (setToast (Some (lit "Exported as TXT")) st,
       Some {| file_name := Js.toLowerCase (s_name cur) ++ lit "-chat-history.txt";
               file_content := text |})
  end.

(** The document as the specification words it: one block per message,
    in transcript order, a blank line between two blocks. *)
Fixpoint blocks_document (transcript : list message) : str :=
  match transcript with
  | [] => []
  | msg :: rest =>
      match rest with
      | [] => export_line msg
      | _ :: _ => export_line msg ++ [10; 10] ++ blocks_document rest
      end
  end.

End ExportText.

(** The text export as the specification words it, written without the
    handler: a message becomes the block
    [[<formatted local timestamp>] <role label>: <content>], the user's
    label being [You] and the assistant's [AI]; the document is the
    blocks in transcript order, a blank line between two of them. *)
Definition role_label (r : role) : str :=
  match r with
  | user => [89; 111; 117]
  | assistant => [65; 73]
  end.

Definition text_block (formatted : str → str) (msg : message) : str :=
  [91] ++ formatted (timestamp msg) ++ [93; 32]
  ++ role_label (m_role msg) ++ [58; 32] ++ content msg.

Fixpoint separated_by_blank_lines (blocks : list str) : str :=
  match blocks with
  | [] => []
  | block :: rest =>
      match rest with
      | [] => block
      | _ :: _ => block ++ [10; 10] ++ separated_by_blank_lines rest
      end
  end.

Definition specified_text (formatted : str → str) (transcript : list message) : str :=
  separated_by_blank_lines (map (text_block formatted) transcript).

(** ** The incremental reveal: [TypingAnimation]

    The browser's timers are a table from timer ids to the callbacks
    that are still to run; ids are handed out in increasing order and
    never reused.  The table tracks the timers of [TypingAnimation]
    only, whose callback is determined by the [text] and [currentIndex]
    of its closure. *)

Record tick := {
  tick_text : str;
  tick_currentIndex : nat
}.

Record Timers := {
  armed : gmap nat tick;
  next_timer : nat
}.

(** [setTimeout(cb, 20)]: the new table and the id returned. *)
Definition setTimeout (cb : tick) (tm : Timers) : Timers * nat :=
  ({| armed := <[next_timer tm := cb]> (armed tm); next_timer := S (next_timer tm) |},
   next_timer tm).

Definition clearTimeout (timer : nat) (tm : Timers) : Timers :=
  {| armed := delete timer (armed tm); next_timer := next_timer tm |}.

(** A mounted [TypingAnimation]: its prop, its two state cells, and the
    cleanup its effect returned last ([Some timer] for
    [() => clearTimeout(timer)], [None] when the effect returned
    nothing). *)
Record Typing := {
  text : str;
  displayedText : str;
  currentIndex : nat;
  cleanup : option nat
}.

(** The body of the effect, for a render with the given cells. *)
Definition typingEffect (txt dsp : str) (idx : nat) (tm : Timers) : Typing * Timers :=
  if bool_decide (idx < length txt)%nat then
    let '(tm', timer) := setTimeout {| tick_text := txt; tick_currentIndex := idx |} tm in
    ({| text := txt; displayedText := dsp; currentIndex := idx; cleanup := Some timer |},
     tm')
  else
    ({| text := txt; displayedText := dsp; currentIndex := idx; cleanup := None |}, tm).

Definition runCleanup (ty : Typing) (tm : Timers) : Timers :=
  match cleanup ty with
  | Some timer => clearTimeout timer tm
  | None => tm
  end.

(** The user interface: the [App] state, the timer table, and the
    [TypingAnimation] on screen, if there is one. *)
Record UI := {
  app : AppState;
  timers : Timers;
  typing : option Typing
}.

(** The message the chat view wraps in [TypingAnimation]: the last one
    of the shown transcript, while [isTyping] holds. *)
Definition typed_message (st : AppState) : option message :=
  match currentSection st with
  | None => None
  | Some cur =>
      if isTyping st then last (entry_or_empty (chatHistory st) (s_id cur)) else None
  end.

(** A render of [App] with state [st'].  [TypingAnimation] is a function
    created anew by each render of [App], so React never reuses the
    mounted instance: it unmounts it, which runs the cleanup of its
    effect, and mounts a fresh one where the new view has one.  The
    cleanup and the new effect are taken to run with the render, before
    any timer elapses. *)
Definition rerender (st' : AppState) (ui : UI) : UI :=
  let tm1 :=
    match typing ui with
    | Some ty => runCleanup ty (timers ui)
    | None => timers ui
    end in
  match typed_message st' with
  | Some msg =>
      let '(ty, tm2) := typingEffect (content msg) [] 0 tm1 in
      {| app := st'; timers := tm2; typing := Some ty |}
  | None => {| app := st'; timers := tm1; typing := None |}
  end.

(** [text[currentIndex]] appended to a string: the code unit, or the
    text of [undefined] past the end. *)
Definition char_at (txt : str) (i : nat) : str :=
  match txt !! i with
  | Some c => [c]
  | None => lit "undefined"
  end.

(** The timer [timer] fires.  A timer that is not in the table does not
    fire.  The callback updates the two cells of the instance that set
    it; that instance renders again, its dependencies have changed, so
    the old cleanup runs and then the effect. *)
Definition fire (timer : nat) (ui : UI) : UI :=
  match armed (timers ui) !! timer with
  | None => ui
  | Some cb =>
      let tm1 := {| armed := delete timer (armed (timers ui));
                    next_timer := next_timer (timers ui) |} in
      match typing ui with
      | Some ty =>
          if bool_decide (cleanup ty = Some timer) then
            let dsp := displayedText ty ++ char_at (tick_text cb) (tick_currentIndex cb) in
            let idx := S (currentIndex ty) in
            let '(ty', tm2) := typingEffect (text ty) dsp idx (runCleanup ty tm1) in
            {| app := app ui; timers := tm2; typing := Some ty' |}
          else {| app := app ui; timers := tm1; typing := typing ui |}
      | None => {| app := app ui; timers := tm1; typing := None |}
      end
  end.

(** The interface before the first render, and its steps: a handler or
    an effect of [App] sets state cells and [App] renders again with the
    new state, or a timer of the table elapses. *)
Definition initialUI : UI :=
  {| app := initialState; timers := {| armed := ∅; next_timer := 0 |}; typing := None |}.

Inductive ui_step : UI → UI → Prop :=
| step_render (st' : AppState) (ui : UI) : ui_step ui (rerender st' ui)
| step_fire (timer : nat) (ui : UI) : ui_step ui (fire timer ui).

(** ** Sequences of submissions

    A call [submit(sectionId, queryText)] of the controller, as the
    component offers it: the user picks the section, types the query and
    submits; the clock readings and the way the request settles come
    with the call. *)
Record call := {
  c_section : section;
  c_queryText : str;
  c_t1 : str;
  c_outcome : fetch_outcome;
  c_t2 : str
}.

Definition submit (c : call) (st : AppState) : option AppState :=
  handleSubmit (c_t1 c) (c_outcome c) (c_t2 c)
    (setPrompt (c_queryText c) (handleSectionSelect (c_section c) st)).

Fixpoint submit_all (calls : list call) (st : AppState) : option AppState :=
  match calls with
  | [] => Some st
  | c :: calls' =>
      match submit c st with
      | Some st' => submit_all calls' st'
      | None => None
      end
  end.

(** A submission succeeds when its [try] block runs to its end. *)
Definition succeeds (o : fetch_outcome) : bool :=
  match o with
  | Json d =>
      if redirect d then
        match find_section (d_section d) with Some _ => true | None => false end
      else true
  | _ => false
  end.

(** ** Export as PDF

    The jsPDF document is modelled by what the handler does with it: the
    pages finished so far, the texts drawn on the current page, and the
    font size in force.  Coordinates are the integers of the source. *)

Record drawn := {
  d_text : str;
  d_x : Z;
  d_y : Z;
  d_fontSize : Z
}.

Record Pdf := {
  pdf_pages : list (list drawn);
  pdf_page : list drawn;
  pdf_fontSize : Z
}.

(** [new jsPDF()]: one empty page. *)
Definition newPdf : Pdf :=
  {| pdf_pages := []; pdf_page := []; pdf_fontSize := 16 |}.

Definition pdf_setFontSize (n : Z) (doc : Pdf) : Pdf :=
  {| pdf_pages := pdf_pages doc; pdf_page := pdf_page doc; pdf_fontSize := n |}.

Definition pdf_text (t : str) (x y : Z) (doc : Pdf) : Pdf :=
  {| pdf_pages := pdf_pages doc;
     pdf_page := pdf_page doc
                 ++ [ {| d_text := t; d_x := x; d_y := y; d_fontSize := pdf_fontSize doc |} ];
     pdf_fontSize := pdf_fontSize doc |}.

Definition pdf_addPage (doc : Pdf) : Pdf :=
  {| pdf_pages := pdf_pages doc ++ [pdf_page doc]; pdf_page := [];
     pdf_fontSize := pdf_fontSize doc |}.

(** The pages of the document, in order. *)
Definition pdf_all_pages (doc : Pdf) : list (list drawn) :=
  pdf_pages doc ++ [pdf_page doc].

Section ExportPaginated.

Variable toLocaleString : str → str.

(** [doc.splitTextToSize(text, width)] of jsPDF, for the font in force. *)
Variable splitTextToSize : str → Z → list str.

(** [if (y > 270) { doc.addPage(); y = 20; }] *)
Definition breakPage (s : Pdf * Z) : Pdf * Z :=
  let '(doc, y) := s in
  if (270 <? y)%Z then (pdf_addPage doc, 20%Z) else (doc, y).

(** The body of [lines.forEach]. *)
Definition pdf_line (s : Pdf * Z) (line : str) : Pdf * Z :=
  let '(doc, y) := breakPage s in
  (pdf_text line 20 y doc, (y + 7)%Z).

(** The first line of a message: [[timestamp] label:]. *)
Definition pdf_header (msg : message) : str :=
  lit "[" ++ toLocaleString (timestamp msg) ++ lit "] "
  ++ (match m_role msg with user => lit "You" | assistant => lit "AI" end)
  ++ lit ":".

(** The body of [sectionHistory.forEach]. *)
Definition pdf_message (s : Pdf * Z) (msg : message) : Pdf * Z :=
  let '(doc, y) := breakPage s in
  let doc1 := pdf_text (pdf_header msg) 20 y (pdf_setFontSize 10 doc) in
  let lines := splitTextToSize (content msg) 170 in
  let '(doc2, y2) := fold_left pdf_line lines (pdf_setFontSize 12 doc1, (y + 10)%Z) in
  (doc2, (y2 + 10)%Z).

(** [exportAsPDF]: the new state and the document saved, with its file
    name, if any. *)
Definition exportAsPDF (st : AppState) : AppState * option (str * Pdf) :=
  match currentSection st with
  | None => (st, None)
  | Some cur =>
      let sectionHistory := entry_or_empty (chatHistory st) (s_id cur) in
      let doc0 :=
        pdf_text (s_name cur ++ lit " Chat History") 20 20 (pdf_setFontSize 16 newPdf) in
      let '(doc, _) := fold_left pdf_message sectionHistory (doc0, (20 + 20)%Z) in
      (setToast (Some (lit "Exported as PDF")) st,
       Some (Js.toLowerCase (s_name cur) ++ lit "-chat-history.pdf", doc))
  end.

(** The texts a message contributes, with their font sizes. *)
Definition pdf_message_texts (msg : message) : list (str * Z) :=
  (pdf_header msg, 10%Z) :: map (fun line => (line, 12%Z)) (splitTextToSize (content msg) 170).

End ExportPaginated.

(** The texts of a document with their font sizes, in drawing order. *)
Definition pdf_texts (doc : Pdf) : list (str * Z) :=
  map (fun d => (d_text d, d_fontSize d)) (concat (pdf_all_pages doc)).

(** ** The user at work

    The pending timer of the mounted [TypingAnimation] elapses. *)
Definition elapse (ui : UI) : UI :=
  match typing ui with
  | Some ty =>
      match cleanup ty with
      | Some timer => fire timer ui
      | None => ui
      end
  | None => ui
  end.

(** What a user can do to the state while a request is in flight. *)
Inductive meanwhile :=
| TypePrompt (v : str)
| PickExample (examplePrompt : str)
| PickSection (s : section)
| GoBack
| ClearChat.

Definition do_meanwhile (st : AppState) (m : meanwhile) : AppState :=
  match m with
  | TypePrompt v => setPrompt v st
  | PickExample ex => tryExample ex st
  | PickSection s => handleSectionSelect s st
  | GoBack => handleBackToSections st
  | ClearChat => clearChat st
  end.

(** A step of a session: the user edits the prompt, which changes no
    dependency of a saving effect, or performs an operation; the picker
    offers the sections of the catalog only. *)
Inductive user_step : AppState * Storage → AppState * Storage → Prop :=
| user_types (v : str) (st : AppState) (ls : Storage) :
    user_step (st, ls) (setPrompt v st, ls)
| user_performs (op : operation) (w w' : AppState * Storage) :
    (∀ s, op = Select s → s ∈ sections) →
    perform op w = Some w' →
    user_step w w'.

(** ** The earlier variant of the component

    The source file without a name holds an [App] with a single prompt
    and a single result. *)
Module Single.

Record answer := {
  category : str;
  a_response : str
}.

Record State := {
  prompt : str;
  result : option answer;
  isLoading : bool;
  error : option str
}.

Definition initialState : State :=
  {| prompt := []; result := None; isLoading := false; error := None |}.

(** [onChange] of the textarea and [tryExample]. *)
Definition setPrompt (v : str) (st : State) : State :=
  {| prompt := v; result := result st; isLoading := isLoading st; error := error st |}.

Inductive outcome :=
| FetchRejects
| ResNotOk
| JsonRejects
| Json (d : answer).

(** [handleSubmit]: [None] when it returns at its guard, else the body
    of the request and the state once the request has settled, with
    nothing else happening meanwhile. *)
Definition handleSubmit (o : outcome) (st : State) : State * option str :=
  if blank (prompt st) then (st, None)
  else
    let after_try :=
      match o with
      | Json d => {| prompt := prompt st; result := Some d; isLoading := true;
                     error := None |}
      | _ => {| prompt := prompt st; result := result st; isLoading := true;
                error := Some connection_error |}
      end in
    ({| prompt := prompt after_try; result := result after_try; isLoading := false;
        error := error after_try |},
     Some (prompt st)).

(** What the component shows under the form: the error box and the
    result box, each when its cell is truthy. *)
Definition shown (st : State) : option str * option answer :=
  (if default false (Js.truthy <$> error st) then error st else None, result st).

End Single.

(** ** The points of an operation

    The state cells set, and the storage, when the handler of an
    operation has returned and React has not rendered yet: no handler
    holds a call of [localStorage], so the storage is the one it found.
    The handler of a submission returns at its first [await]. *)
Definition handler_returned (op : operation) (w : AppState * Storage)
    : option (AppState * Storage) :=
  let '(st, ls) := w in
  match op with
  | Submit t1 _ _ =>
      match handleSubmit_begin t1 st with
      | Some (st1, _) => Some (st1, ls)
      | None => None
      end
  | Clear => Some (clearChat st, ls)
  | Select s => Some (handleSectionSelect s st, ls)
  | Back => Some (handleBackToSections st, ls)
  end.

(** The state and the storage while the request of a submission is in
    flight: the render caused by the synchronous part has been
    committed.  [None] when the handler issued no request. *)
Definition in_flight (t1 : str) (w : AppState * Storage)
    : option (AppState * Storage * suspended) :=
  let '(st, ls) := w in
  match handleSubmit_begin t1 st with
  | Some (st1, Some k) => Some (st1, commit st1 ls, k)
  | _ => None
  end.

(** The request of the closure [k] settles: the handler resumes and the
    render it causes is committed. *)
Definition settled (k : suspended) (o : fetch_outcome) (t2 : str)
    (w : AppState * Storage) : AppState * Storage :=
  let '(st, ls) := w in
  let st2 := handleSubmit_resume k o t2 st in
  (st2, commit st2 ls).

(** A session point by point, the points with requests in flight
    included: the third component holds the closures of the submissions
    that have not settled yet. *)
Inductive session_step :
  AppState * Storage * list suspended → AppState * Storage * list suspended → Prop :=
| ss_types (v : str) (st : AppState) (ls : Storage) (ks : list suspended) :
    session_step (st, ls, ks) (setPrompt v st, ls, ks)
| ss_does (op : operation) (st st1 : AppState) (ls : Storage) (ks : list suspended) :
    (∀ t1 o t2, op ≠ Submit t1 o t2) →
    (∀ s, op = Select s → s ∈ sections) →
    handler_returned op (st, ls) = Some (st1, ls) →
    session_step (st, ls, ks) (st1, commit st1 ls, ks)
| ss_leaves (t1 : str) (st st1 : AppState) (ls ls1 : Storage) (k : suspended)
    (ks : list suspended) :
    in_flight t1 (st, ls) = Some (st1, ls1, k) →
    session_step (st, ls, ks) (st1, ls1, k :: ks)
| ss_settles (k : suspended) (o : fetch_outcome) (t2 : str) (st : AppState)
    (ls : Storage) (ks1 ks2 : list suspended) :
    session_step (st, ls, ks1 ++ k :: ks2)
      ((settled k o t2 (st, ls)).1, (settled k o t2 (st, ls)).2, ks1 ++ ks2).

(** ** Replies outside the documented shape

    The handler reads three properties of what [res.json()] resolves to
    and checks none of them.  The embedding above takes the reply at the
    documented shape; this one lets each property be missing and the
    reply be [null], so a message can have the content [undefined]
    ([None]).  It is the same handler, written over these replies. *)
Module Raw.

Record message := {
  m_role : role;
  content : option str;
  timestamp : str
}.

(** What [res.json()] resolves to: [null], or an object whose
    properties [response], [redirect] and [section] each have the
    documented type or are missing. *)
Inductive reply :=
| Null
| Object (response : option str) (redirect : option bool) (section_id : option str).

Record State := {
  currentSection : option section;
  prompt : str;
  result : option reply;
  isLoading : bool;
  error : option str;
  toast : option str;
  chatHistory : gmap str (list message);
  isTyping : bool
}.

Inductive fetch_outcome :=
| FetchRejects
| ResNotOk
| JsonRejects
| Json (data : reply).

Record suspended := {
  k_currentSection : section;
  k_userMessage : message;
  k_request : request
}.

Definition setCurrentSection (v : option section) (st : State) : State :=
  {| currentSection := v; prompt := prompt st; result := result st;
     isLoading := isLoading st; error := error st; toast := toast st;
     chatHistory := chatHistory st; isTyping := isTyping st |}.

Definition setPrompt (v : str) (st : State) : State :=
  {| currentSection := currentSection st; prompt := v; result := result st;
     isLoading := isLoading st; error := error st; toast := toast st;
     chatHistory := chatHistory st; isTyping := isTyping st |}.

Definition setResult (v : option reply) (st : State) : State :=
  {| currentSection := currentSection st; prompt := prompt st; result := v;
     isLoading := isLoading st; error := error st; toast := toast st;
     chatHistory := chatHistory st; isTyping := isTyping st |}.

Definition setIsLoading (v : bool) (st : State) : State :=
  {| currentSection := currentSection st; prompt := prompt st; result := result st;
     isLoading := v; error := error st; toast := toast st;
     chatHistory := chatHistory st; isTyping := isTyping st |}.

Definition setError (v : option str) (st : State) : State :=
  {| currentSection := currentSection st; prompt := prompt st; result := result st;
     isLoading := isLoading st; error := v; toast := toast st;
     chatHistory := chatHistory st; isTyping := isTyping st |}.

Definition setToast (v : option str) (st : State) : State :=
  {| currentSection := currentSection st; prompt := prompt st; result := result st;
     isLoading := isLoading st; error := error st; toast := v;
     chatHistory := chatHistory st; isTyping := isTyping st |}.

Definition setChatHistory (f : gmap str (list message) → gmap str (list message))
    (st : State) : State :=
  {| currentSection := currentSection st; prompt := prompt st; result := result st;
     isLoading := isLoading st; error := error st; toast := toast st;
     chatHistory := f (chatHistory st); isTyping := isTyping st |}.

Definition setIsTyping (v : bool) (st : State) : State :=
  {| currentSection := currentSection st; prompt := prompt st; result := result st;
     isLoading := isLoading st; error := error st; toast := toast st;
     chatHistory := chatHistory st; isTyping := v |}.

Definition entry_or_empty (h : gmap str (list message)) (id : str) : list message :=
  default [] (h !! id).

Definition snapshot (st : State) (id : str) : list message :=
  entry_or_empty (chatHistory st) id.

Definition append_to (id : str) (ms : list message)
    (prev : gmap str (list message)) : gmap str (list message) :=
  <[id := entry_or_empty prev id ++ ms]> prev.

Definition handleSubmit_begin (now : str) (st : State)
    : option (State * option suspended) :=
  if blank (prompt st) then Some (st, None)
  else
    match currentSection st with
    | None => None
    | Some cur =>
        let currentPrompt := prompt st in
        let userMessage :=
          {| m_role := user; content := Some currentPrompt; timestamp := now |} in
        let st1 := setPrompt [] (setError None (setIsTyping true (setIsLoading true st))) in
        let st2 := setChatHistory (append_to (s_id cur) [userMessage]) st1 in
        Some (st2, Some {| k_currentSection := cur; k_userMessage := userMessage;
                           k_request := {| req_prompt := currentPrompt;
                                           req_current_section := s_id cur |} |})
    end.

(** [data.redirect] is truthy when it is [true]; a missing property
    reads as [undefined].  Reading a property of [null] throws. *)
Definition handleSubmit_try (k : suspended) (o : fetch_outcome) (now : str)
    (st : State) : State + State :=
  match o with
  | FetchRejects | ResNotOk | JsonRejects => inr st
  | Json Null => inr st
  | Json (Object response redirect section_id) =>
      if default false redirect then
        let previousSection := k_currentSection k in
        let newSection := find_section section_id in
        let st1 := setCurrentSection newSection st in
        match newSection with
        | None => inr st1
        | Some new =>
            let st2 := setToast (Some (switched_toast previousSection new)) st1 in
            let aiMessage :=
              {| m_role := assistant; content := response; timestamp := now |} in
            let st3 :=
              setChatHistory (append_to (s_id new) [k_userMessage k; aiMessage]) st2 in
            inl (setResult (Some (Object response redirect section_id)) st3)
        end
      else
        let aiMessage :=
          {| m_role := assistant; content := response; timestamp := now |} in
        let st1 :=
          setChatHistory
            (append_to (s_id (k_currentSection k)) [k_userMessage k; aiMessage]) st in
        inl (setResult (Some (Object response redirect section_id)) st1)
  end.

Definition handleSubmit_resume (k : suspended) (o : fetch_outcome) (now : str)
    (st : State) : State :=
  let st1 :=
    match handleSubmit_try k o now st with
    | inl st' => st'
    | inr st' => setError (Some connection_error) st'
    end in
  setIsTyping false (setIsLoading false st1).

Definition handleSubmit (t1 : str) (o : fetch_outcome) (t2 : str) (st : State)
    : option State :=
  match handleSubmit_begin t1 st with
  | None => None
  | Some (st1, None) => Some st1
  | Some (st1, Some k) => Some (handleSubmit_resume k o t2 st1)
  end.

(** The failures of the remote call the handler detects. *)
Inductive remote_failure : fetch_outcome → Prop :=
| fails_in_transport : remote_failure FetchRejects
| fails_by_status : remote_failure ResNotOk
| body_not_json : remote_failure JsonRejects
| body_null : remote_failure (Json Null).

End Raw.

(** The states, replies and outcomes of the documented shape, among the
    ones above. *)
Definition embed_message (m : message) : Raw.message :=
  {| Raw.m_role := m_role m; Raw.content := Some (content m);
     Raw.timestamp := timestamp m |}.

Definition embed_data (d : data) : Raw.reply :=
  Raw.Object (Some (response d)) (Some (redirect d)) (d_section d).

Definition embed_outcome (o : fetch_outcome) : Raw.fetch_outcome :=
  match o with
  | FetchRejects => Raw.FetchRejects
  | ResNotOk => Raw.ResNotOk
  | JsonRejects => Raw.JsonRejects
  | Json d => Raw.Json (embed_data d)
  end.

Definition embed_history (h : gmap str (list message)) : gmap str (list Raw.message) :=
  (map embed_message) <$> h.

Definition embed_state (st : AppState) : Raw.State :=
  {| Raw.currentSection := currentSection st; Raw.prompt := prompt st;
     Raw.result := embed_data <$> result st; Raw.isLoading := isLoading st;
     Raw.error := error st; Raw.toast := toast st;
     Raw.chatHistory := embed_history (chatHistory st);
     Raw.isTyping := isTyping st |}.

Definition embed_suspended (k : suspended) : Raw.suspended :=
  {| Raw.k_currentSection := k_currentSection k;
     Raw.k_userMessage := embed_message (k_userMessage k);
     Raw.k_request := k_request k |}.

(** ** Scenarios and predicates used by the properties *)

(** The state while the request of a first question is in flight. *)
Definition first_pending : AppState :=
  match handleSubmit_begin (lit "t1")
          (setPrompt (lit "first") (handleSectionSelect health initialState)) with
  | Some (st1, _) => st1
  | None => initialState
  end.

(** The request is still in flight and the user has typed a second
    question. *)
Definition second_question : AppState := setPrompt (lit "second") first_pending.

(** The failures of the remote call. *)
Inductive remote_failure : fetch_outcome → Prop :=
| transport_error : remote_failure FetchRejects
| non_success_status : remote_failure ResNotOk
| malformed_payload : remote_failure JsonRejects.

(** The state after a question asked in general was redirected to a
    section named sports. *)
Definition redirected_to_sports : option AppState :=
  handleSubmit (lit "t1")
    (Json {| response := lit "Y"; redirect := true; d_section := Some (lit "sports") |})
    (lit "t2") (setPrompt (lit "X") (handleSectionSelect general initialState)).

(** A stored mapping with a transcript of the removed section sports
    next to one of the section music. *)
Definition stale_storage : Storage :=
  {| ls_currentSection := Some (lit "sports");
     ls_chatHistory :=
       Some (<[lit "sports" :=
                 [ {| m_role := user; content := lit "score?"; timestamp := lit "t1" |} ]]>
               (<[lit "music" :=
                    [ {| m_role := user; content := lit "jazz"; timestamp := lit "t0" |} ]]>
                  ∅)) |}.

(** Two successful calls: a question in health answered in place, then
    one in general redirected to banking. *)
Definition two_calls : list call :=
  [ {| c_section := health; c_queryText := lit "a"; c_t1 := lit "t1";
       c_outcome := Json {| response := lit "b"; redirect := false; d_section := None |};
       c_t2 := lit "t2" |};
    {| c_section := general; c_queryText := lit "c"; c_t1 := lit "t3";
       c_outcome := Json {| response := lit "d"; redirect := true;
                            d_section := Some (lit "banking") |};
       c_t2 := lit "t4" |} ].


(** What holds of every interface the steps lead to: the armed timers
    are exactly the timer of the mounted [TypingAnimation], ids below
    [next_timer], and the text being revealed is the content of the last
    message of the shown transcript. *)
Record ui_inv (ui : UI) : Prop := {
  inv_armed : ∀ t, is_Some (armed (timers ui) !! t)
                   ↔ ∃ ty, typing ui = Some ty ∧ cleanup ty = Some t;
  inv_below : ∀ t, is_Some (armed (timers ui) !! t) → (t < next_timer (timers ui))%nat;
  inv_text : ∀ ty, typing ui = Some ty →
                   ∃ msg, typed_message (app ui) = Some msg ∧ text ty = content msg
}.

(** A cancelled timer: not in the table, its id already handed out. *)
Definition cancelled (timer : nat) (ui : UI) : Prop :=
  armed (timers ui) !! timer = None ∧ (timer < next_timer (timers ui))%nat.

(** A reveal of the first question, one tick in, at the time the second
    question is submitted. *)
Definition revealing : UI :=
  fire 1 (rerender second_question (rerender first_pending initialUI)).

Definition second_pending : AppState :=
  match handleSubmit_begin (lit "t2") second_question with
  | Some (st', _) => st'
  | None => initialState
  end.

(** A short session: a question asked in movies, the chat of movies
    cleared, section music selected. *)
Definition short_session : AppState * Storage :=
  match perform (Select movies)
          (mount {| ls_currentSection := None; ls_chatHistory := None |}) with
  | Some (st1, ls1) =>
      match perform (Submit (lit "t1") ResNotOk (lit "t2")) (setPrompt (lit "X") st1, ls1) with
      | Some w2 =>
          match perform Clear w2 with
          | Some (st3, ls3) =>
              match perform Back (st3, ls3) with
              | Some w4 => default w4 (perform (Select music) w4)
              | None => (st3, ls3)
              end
          | None => w2
          end
      | None => (st1, ls1)
      end
  | None => mount {| ls_currentSection := None; ls_chatHistory := None |}
  end.

(** Section health with a transcript of twenty messages. *)
Definition long_transcript : AppState :=
  setChatHistory
    (append_to (lit "health")
       (replicate 20 {| m_role := user; content := lit "hello"; timestamp := lit "t" |}))
    (handleSectionSelect health initialState).


(** A session on an empty storage at the point where the request of a
    first question, asked in health, is in flight. *)
Definition first_in_flight : AppState * Storage * list suspended :=
  (first_pending,
   commit first_pending
     (commit (handleSectionSelect health initialState)
        (mount {| ls_currentSection := None; ls_chatHistory := None |}).2),
   [ {| k_currentSection := health;
        k_userMessage := {| m_role := user; content := lit "first";
                            timestamp := lit "t1" |};
        k_request := {| req_prompt := lit "first";
                        req_current_section := lit "health" |} |} ]).

(** What the handler of the first question holds across its [await]. *)
Definition first_request : suspended :=
  {| k_currentSection := health;
     k_userMessage := {| m_role := user; content := lit "first"; timestamp := lit "t1" |};
     k_request := {| req_prompt := lit "first"; req_current_section := lit "health" |} |}.

(** * Properties *)

Arguments Js.lit _ : simpl never.
Arguments find_section _ : simpl never.
Arguments append_to _ _ _ : simpl never.
Arguments entry_or_empty _ _ : simpl never.

(** ** Transcript updates *)

Section TranscriptLemmas.

Implicit Types (h : gmap str (list message)) (id : str) (ms : list message).

Lemma entry_append_to_eq h id ms :
  entry_or_empty (append_to id ms h) id = entry_or_empty h id ++ ms.
Proof. unfold entry_or_empty, append_to. by rewrite lookup_insert_eq. Qed.

Lemma lookup_append_to_ne h id id' ms :
  id ≠ id' → append_to id ms h !! id' = h !! id'.
Proof. intros Hne. unfold append_to. by rewrite lookup_insert_ne. Qed.

Lemma entry_append_to_ne h id id' ms :
  id ≠ id' → entry_or_empty (append_to id ms h) id' = entry_or_empty h id'.
Proof. intros Hne. unfold entry_or_empty. by rewrite lookup_append_to_ne. Qed.

(** Appending to one transcript extends every transcript (most of them
    by nothing). *)
Lemma entry_append_to_prefix h id id' ms :
  entry_or_empty h id' `prefix_of` entry_or_empty (append_to id ms h) id'.
Proof.
  destruct (decide (id = id')) as [->|Hne].
  - rewrite entry_append_to_eq. by apply prefix_app_r.
  - by rewrite entry_append_to_ne.
Qed.

End TranscriptLemmas.

(** What the synchronous part does once the two guards are passed. *)
Lemma handleSubmit_begin_Some now st cur :
  blank (prompt st) = false → currentSection st = Some cur →
  ∃ st1 k,
    handleSubmit_begin now st = Some (st1, Some k)
    ∧ k_currentSection k = cur
    ∧ k_userMessage k = {| m_role := user; content := prompt st; timestamp := now |}
    ∧ k_request k = {| req_prompt := prompt st; req_current_section := s_id cur |}
    ∧ chatHistory st1 = append_to (s_id cur) [k_userMessage k] (chatHistory st)
    ∧ currentSection st1 = Some cur
    ∧ isLoading st1 = true.
Proof.
  intros Hb Hc. unfold handleSubmit_begin. rewrite Hb, Hc.
  eexists _, _. repeat split; cbn; done.
Qed.

(** Whenever the [try] block throws, the transcripts are the ones it
    started with, the error cell holds the connection message and both
    flags are released. *)
Lemma handleSubmit_resume_throws k o now st st1 :
  handleSubmit_try k o now st = inr st1 →
  chatHistory (handleSubmit_resume k o now st) = chatHistory st
  ∧ error (handleSubmit_resume k o now st) = Some connection_error
  ∧ isLoading (handleSubmit_resume k o now st) = false
  ∧ isTyping (handleSubmit_resume k o now st) = false.
Proof.
  intros Ht. unfold handleSubmit_resume. rewrite Ht. cbn.
  repeat split.
  unfold handleSubmit_try in Ht.
  destruct o as [ | | |d]; try (by inversion Ht).
  destruct (redirect d); [|by inversion Ht].
  destruct (find_section (d_section d)); by inversion Ht.
Qed.

(** A redirect to a section of the catalog. *)
Lemma handleSubmit_resume_redirect k d now st new :
  redirect d = true → find_section (d_section d) = Some new →
  chatHistory (handleSubmit_resume k (Json d) now st)
  = append_to (s_id new)
      [k_userMessage k;
       {| m_role := assistant; content := response d; timestamp := now |}]
      (chatHistory st)
  ∧ currentSection (handleSubmit_resume k (Json d) now st) = Some new
  ∧ error (handleSubmit_resume k (Json d) now st) = error st
  ∧ isLoading (handleSubmit_resume k (Json d) now st) = false.
Proof.
  intros Hr Hf. unfold handleSubmit_resume, handleSubmit_try.
  rewrite Hr, Hf. repeat split.
Qed.

(** An answer for the section the question was asked in. *)
Lemma handleSubmit_resume_answer k d now st :
  redirect d = false →
  chatHistory (handleSubmit_resume k (Json d) now st)
  = append_to (s_id (k_currentSection k))
      [k_userMessage k;
       {| m_role := assistant; content := response d; timestamp := now |}]
      (chatHistory st)
  ∧ currentSection (handleSubmit_resume k (Json d) now st) = currentSection st
  ∧ error (handleSubmit_resume k (Json d) now st) = error st
  ∧ isLoading (handleSubmit_resume k (Json d) now st) = false.
Proof.
  intros Hr. unfold handleSubmit_resume, handleSubmit_try.
  rewrite Hr. repeat split.
Qed.

(** A whole call that passes the guards is the synchronous part followed
    by the resumption. *)
Lemma handleSubmit_Some t1 o t2 st cur :
  blank (prompt st) = false → currentSection st = Some cur →
  ∃ st1 k,
    handleSubmit_begin t1 st = Some (st1, Some k)
    ∧ handleSubmit t1 o t2 st = Some (handleSubmit_resume k o t2 st1)
    ∧ k_currentSection k = cur
    ∧ k_userMessage k = {| m_role := user; content := prompt st; timestamp := t1 |}
    ∧ chatHistory st1 = append_to (s_id cur) [k_userMessage k] (chatHistory st)
    ∧ currentSection st1 = Some cur.
Proof.
  intros Hb Hc.
  destruct (handleSubmit_begin_Some t1 st cur Hb Hc)
    as (st1 & k & Hbeg & Hk & Hu & _ & Hh & Hc1 & _).
  exists st1, k. unfold handleSubmit. rewrite Hbeg. done.
Qed.

(** ** C1: redirect *)

(** C1. A submission of [X] made in section general and answered with
    [{redirect: true, section: "banking", response: Y}] leaves the
    banking transcript ending in the user message [X] followed by the
    assistant message [Y], the general transcript ending in the user
    message [X], and banking as the active section. *)
Theorem redirect_correctness (st : AppState) (X Y t1 t2 : str) :
  currentSection st = Some general →
  prompt st = X →
  blank X = false →
  ∃ st',
    handleSubmit t1
      (Json {| response := Y; redirect := true; d_section := Some (lit "banking") |})
      t2 st = Some st'
    ∧ snapshot st' (lit "banking")
      = snapshot st (lit "banking")
        ++ [ {| m_role := user; content := X; timestamp := t1 |};
             {| m_role := assistant; content := Y; timestamp := t2 |} ]
    ∧ snapshot st' (lit "general")
      = snapshot st (lit "general")
        ++ [ {| m_role := user; content := X; timestamp := t1 |} ]
    ∧ last (snapshot st' (lit "general"))
      = Some {| m_role := user; content := X; timestamp := t1 |}
    ∧ currentSection st' = Some banking.
Proof.
  intros Hcur HX Hb. subst X.
  set (d := {| response := Y; redirect := true; d_section := Some (lit "banking") |}).
  destruct (handleSubmit_Some t1 (Json d) t2 st general Hb Hcur)
    as (st1 & k & _ & Hrun & _ & Hu & Hh & _).
  assert (Hfind : find_section (d_section d) = Some banking) by reflexivity.
  destruct (handleSubmit_resume_redirect k d t2 st1 banking eq_refl Hfind)
    as (Hh' & Hc' & _).
  assert (Hne : s_id banking ≠ s_id general) by (vm_compute; discriminate).
  assert (Hg : snapshot (handleSubmit_resume k (Json d) t2 st1) (lit "general")
               = snapshot st (lit "general")
                 ++ [ {| m_role := user; content := prompt st; timestamp := t1 |} ]).
  { unfold snapshot. rewrite Hh', Hh, Hu.
    rewrite entry_append_to_ne by exact Hne.
    apply (entry_append_to_eq _ (s_id general)). }
  eexists. split; [exact Hrun|]. split; [|split; [exact Hg|split; [|exact Hc']]].
  - unfold snapshot. rewrite Hh', Hh, Hu.
    rewrite (entry_append_to_eq _ (s_id banking)).
    rewrite entry_append_to_ne by (intros Heq; by apply Hne).
    reflexivity.
  - rewrite Hg. apply last_snoc.
Qed.

Lemma redirect_correctness_witness :
  ∃ st',
    handleSubmit (lit "t1")
      (Json {| response := lit "Y"; redirect := true;
               d_section := Some (lit "banking") |})
      (lit "t2") (setPrompt (lit "X") (handleSectionSelect general initialState))
    = Some st'
    ∧ snapshot st' (lit "banking")
      = snapshot (setPrompt (lit "X") (handleSectionSelect general initialState))
          (lit "banking")
        ++ [ {| m_role := user; content := lit "X"; timestamp := lit "t1" |};
             {| m_role := assistant; content := lit "Y"; timestamp := lit "t2" |} ]
    ∧ snapshot st' (lit "general")
      = snapshot (setPrompt (lit "X") (handleSectionSelect general initialState))
          (lit "general")
        ++ [ {| m_role := user; content := lit "X"; timestamp := lit "t1" |} ]
    ∧ last (snapshot st' (lit "general"))
      = Some {| m_role := user; content := lit "X"; timestamp := lit "t1" |}
    ∧ currentSection st' = Some banking.
Proof.
  apply (redirect_correctness
           (setPrompt (lit "X") (handleSectionSelect general initialState))
           (lit "X") (lit "Y") (lit "t1") (lit "t2"));
    reflexivity.
Defined.

(** ** C2: the guards of a submission *)

(** C2, as stated, fails: the handler called while a request is pending
    is no no-op, it appends the user message and issues a second
    request. *)
Lemma submit_while_pending_not_rejected :
  isLoading second_question = true
  ∧ handleSubmit_begin (lit "t2") second_question ≠ Some (second_question, None)
  ∧ ∃ st' k,
      handleSubmit_begin (lit "t2") second_question = Some (st', Some k)
      ∧ k_request k = {| req_prompt := lit "second"; req_current_section := lit "health" |}
      ∧ snapshot second_question (lit "health")
        = [ {| m_role := user; content := lit "first"; timestamp := lit "t1" |} ]
      ∧ snapshot st' (lit "health")
        = [ {| m_role := user; content := lit "first"; timestamp := lit "t1" |};
            {| m_role := user; content := lit "second"; timestamp := lit "t2" |} ].
Proof.
  split; [reflexivity|]. split.
  - vm_compute. discriminate.
  - eexists _, _. split; [reflexivity|]. split; [reflexivity|].
    split; vm_compute; reflexivity.
Qed.

(** C2, amended. The handler returns before any state update and without
    issuing a request when the query is blank; a submission while a
    request is pending is stopped by the submit button, which is
    disabled while [isLoading] holds or the query is blank. *)
Theorem submit_guards (now : str) (st : AppState) :
  (blank (prompt st) = true → handleSubmit_begin now st = Some (st, None))
  ∧ (isLoading st = true ∨ blank (prompt st) = true →
     clickSubmit now st = Some (st, None)).
Proof.
  split.
  - intros Hb. unfold handleSubmit_begin. by rewrite Hb.
  - intros Hd. unfold clickSubmit, submitDisabled.
    destruct Hd as [-> | ->]; [reflexivity|]. by rewrite orb_true_r.
Qed.

Lemma submit_guards_witness :
  handleSubmit_begin (lit "t")
    (setPrompt (lit "  ") (handleSectionSelect health initialState))
  = Some (setPrompt (lit "  ") (handleSectionSelect health initialState), None)
  ∧ clickSubmit (lit "t2") second_question = Some (second_question, None).
Proof.
  split.
  - apply (proj1 (submit_guards (lit "t")
                    (setPrompt (lit "  ") (handleSectionSelect health initialState)))).
    reflexivity.
  - apply (proj2 (submit_guards (lit "t2") second_question)).
    left. reflexivity.
Defined.

(** ** A failed request, at the documented shape *)

(** On states and replies of the documented shape: when the remote call
    of a submission of [X] fails, the transcript of the section ends in
    the user message [X], no transcript has got anything else, and the
    pending flag is released: a new non-blank query can be submitted. *)
Theorem optimistic_durability (st : AppState) (cur : section) (X t1 t2 : str)
    (o : fetch_outcome) :
  currentSection st = Some cur →
  prompt st = X →
  blank X = false →
  remote_failure o →
  ∃ st',
    handleSubmit t1 o t2 st = Some st'
    ∧ snapshot st' (s_id cur)
      = snapshot st (s_id cur) ++ [ {| m_role := user; content := X; timestamp := t1 |} ]
    ∧ last (snapshot st' (s_id cur))
      = Some {| m_role := user; content := X; timestamp := t1 |}
    ∧ (∀ id, id ≠ s_id cur → chatHistory st' !! id = chatHistory st !! id)
    ∧ isLoading st' = false
    ∧ (∀ q, blank q = false → submitDisabled (setPrompt q st') = false).
Proof.
  intros Hcur HX Hb Hfail. subst X.
  destruct (handleSubmit_Some t1 o t2 st cur Hb Hcur)
    as (st1 & k & _ & Hrun & _ & Hu & Hh & _).
  assert (Hthrow : handleSubmit_try k o t2 st1 = inr st1) by (by destruct Hfail).
  destruct (handleSubmit_resume_throws k o t2 st1 st1 Hthrow) as (Hh' & _ & Hl & _).
  assert (Hs : snapshot (handleSubmit_resume k o t2 st1) (s_id cur)
               = snapshot st (s_id cur)
                 ++ [ {| m_role := user; content := prompt st; timestamp := t1 |} ]).
  { unfold snapshot. rewrite Hh', Hh, Hu. apply entry_append_to_eq. }
  eexists. split; [exact Hrun|]. split; [exact Hs|].
  split; [rewrite Hs; apply last_snoc|].
  split; [|split; [exact Hl|]].
  - intros id Hne. rewrite Hh', Hh. by apply lookup_append_to_ne.
  - intros q Hq. unfold submitDisabled. cbn [prompt setPrompt isLoading].
    by rewrite Hl, Hq.
Qed.

Lemma optimistic_durability_witness :
  ∃ st',
    handleSubmit (lit "t1") ResNotOk (lit "t2")
      (setPrompt (lit "X") (handleSectionSelect health initialState)) = Some st'
    ∧ snapshot st' (s_id health)
      = snapshot (setPrompt (lit "X") (handleSectionSelect health initialState))
          (s_id health)
        ++ [ {| m_role := user; content := lit "X"; timestamp := lit "t1" |} ]
    ∧ last (snapshot st' (s_id health))
      = Some {| m_role := user; content := lit "X"; timestamp := lit "t1" |}
    ∧ (∀ id, id ≠ s_id health →
         chatHistory st' !! id
         = chatHistory (setPrompt (lit "X") (handleSectionSelect health initialState))
             !! id)
    ∧ isLoading st' = false
    ∧ (∀ q, blank q = false → submitDisabled (setPrompt q st') = false).
Proof.
  apply (optimistic_durability
           (setPrompt (lit "X") (handleSectionSelect health initialState))
           health (lit "X") (lit "t1") (lit "t2") ResNotOk);
    [reflexivity | reflexivity | reflexivity | exact non_success_status].
Defined.

(** ** C10: a redirect to a section the catalog does not have *)

Lemma find_section_None (wanted : option str) :
  (∀ s, s ∈ sections → Some (s_id s) ≠ wanted) → find_section wanted = None.
Proof.
  intros Hnot. unfold find_section.
  destruct (List.find _ sections) as [s|] eqn:Hfind; [|reflexivity].
  apply find_some in Hfind as [Hin Hdec].
  apply bool_decide_eq_true in Hdec.
  exfalso. apply (Hnot s); [by apply list_elem_of_In|exact Hdec].
Qed.

(** C10. At a redirect to the section sports, which the catalog does
    not have, the handler reaches its [catch] and sets the error cell,
    as on its other failure paths; but it has unset the active section
    first, so the screen is the section picker, which shows no error:
    the connection-failure message is not surfaced to the user.  On a
    failure path that keeps the section, a non-success status, the same
    message is on screen. *)
Lemma unknown_redirect_error_not_shown :
  (∃ st',
     redirected_to_sports = Some st'
     ∧ error st' = Some connection_error
     ∧ render st' = SectionPicker
     ∧ shown_error st' = None
     ∧ shown_error st' ≠ Some connection_error)
  ∧ (∃ st2,
       handleSubmit (lit "t1") ResNotOk (lit "t2")
         (setPrompt (lit "X") (handleSectionSelect general initialState)) = Some st2
       ∧ shown_error st2 = Some connection_error).
Proof.
  split.
  - eexists. split; [reflexivity|]. split; [reflexivity|]. split; [reflexivity|].
    split; [reflexivity|]. vm_compute. discriminate.
  - eexists. split; [reflexivity|]. vm_compute. reflexivity.
Qed.

(** The whole path of a redirect to a section id the catalog does not
    have: no assistant message is appended anywhere,
    the user message stays last in the transcript of the originating
    section, no section is active any more, and the connection-failure
    message is put in the error cell; the screen is then the section
    picker, which has no error banner, and selecting a section resets the
    cell. *)
Theorem redirect_to_unknown_section (st : AppState) (cur : section) (X t1 t2 : str)
    (d : data) :
  currentSection st = Some cur →
  prompt st = X →
  blank X = false →
  redirect d = true →
  (∀ s, s ∈ sections → Some (s_id s) ≠ d_section d) →
  ∃ st',
    handleSubmit t1 (Json d) t2 st = Some st'
    ∧ snapshot st' (s_id cur)
      = snapshot st (s_id cur) ++ [ {| m_role := user; content := X; timestamp := t1 |} ]
    ∧ last (snapshot st' (s_id cur))
      = Some {| m_role := user; content := X; timestamp := t1 |}
    ∧ (∀ id, id ≠ s_id cur → chatHistory st' !! id = chatHistory st !! id)
    ∧ currentSection st' = None
    ∧ error st' = Some connection_error
    ∧ render st' = SectionPicker
    ∧ shown_error st' = None
    ∧ (∀ s, error (handleSectionSelect s st') = None).
Proof.
  intros Hcur HX Hb Hr Hnot. subst X.
  destruct (handleSubmit_Some t1 (Json d) t2 st cur Hb Hcur)
    as (st1 & k & _ & Hrun & _ & Hu & Hh & _).
  assert (Hthrow : handleSubmit_try k (Json d) t2 st1 = inr (setCurrentSection None st1)).
  { unfold handleSubmit_try. by rewrite Hr, (find_section_None _ Hnot). }
  destruct (handleSubmit_resume_throws _ _ _ _ _ Hthrow) as (Hh' & He & _).
  assert (Hc : currentSection (handleSubmit_resume k (Json d) t2 st1) = None).
  { unfold handleSubmit_resume. by rewrite Hthrow. }
  assert (Hs : snapshot (handleSubmit_resume k (Json d) t2 st1) (s_id cur)
               = snapshot st (s_id cur)
                 ++ [ {| m_role := user; content := prompt st; timestamp := t1 |} ]).
  { unfold snapshot. rewrite Hh', Hh, Hu. apply entry_append_to_eq. }
  eexists. split; [exact Hrun|]. split; [exact Hs|].
  split; [rewrite Hs; apply last_snoc|].
  split; [intros id Hne; rewrite Hh', Hh; by apply lookup_append_to_ne|].
  split; [exact Hc|]. split; [exact He|].
  unfold shown_error, render. rewrite Hc. done.
Qed.

Lemma redirect_to_unknown_section_witness :
  ∃ st',
    redirected_to_sports = Some st'
    ∧ snapshot st' (s_id general)
      = snapshot (setPrompt (lit "X") (handleSectionSelect general initialState))
          (s_id general)
        ++ [ {| m_role := user; content := lit "X"; timestamp := lit "t1" |} ]
    ∧ last (snapshot st' (s_id general))
      = Some {| m_role := user; content := lit "X"; timestamp := lit "t1" |}
    ∧ (∀ id, id ≠ s_id general →
         chatHistory st' !! id
         = chatHistory (setPrompt (lit "X") (handleSectionSelect general initialState))
             !! id)
    ∧ currentSection st' = None
    ∧ error st' = Some connection_error
    ∧ render st' = SectionPicker
    ∧ shown_error st' = None
    ∧ (∀ s, error (handleSectionSelect s st') = None).
Proof.
  apply (redirect_to_unknown_section
           (setPrompt (lit "X") (handleSectionSelect general initialState))
           general (lit "X") (lit "t1") (lit "t2")
           {| response := lit "Y"; redirect := true; d_section := Some (lit "sports") |});
    [reflexivity | reflexivity | reflexivity | reflexivity |].
  intros s Hs. apply list_elem_of_In in Hs.
  repeat (destruct Hs as [<- | Hs]; [vm_compute; discriminate|]).
  destruct Hs.
Defined.

(** ** C8: clearing a transcript *)

(** C8. [clearChat] makes the transcript of the active section the empty
    sequence, keeps its entry in the mapping and in the stored item, and
    leaves the transcript of every other section as it was. *)
Theorem clear_is_local (st : AppState) (cur : section) (ls : Storage) :
  currentSection st = Some cur →
  chatHistory (clearChat st) !! s_id cur = Some []
  ∧ snapshot (clearChat st) (s_id cur) = []
  ∧ (∀ id, id ≠ s_id cur → chatHistory (clearChat st) !! id = chatHistory st !! id)
  ∧ (∃ st' ls' stored,
       perform Clear (st, ls) = Some (st', ls')
       ∧ st' = clearChat st
       ∧ ls_chatHistory ls' = Some stored
       ∧ stored !! s_id cur = Some []
       ∧ (∀ id, id ≠ s_id cur → stored !! id = chatHistory st !! id)).
Proof.
  intros Hcur.
  assert (Hh : chatHistory (clearChat st) = <[s_id cur := []]> (chatHistory st)).
  { unfold clearChat. by rewrite Hcur. }
  assert (Heq : chatHistory (clearChat st) !! s_id cur = Some []).
  { rewrite Hh. apply lookup_insert_eq. }
  assert (Hne : ∀ id, id ≠ s_id cur →
                  chatHistory (clearChat st) !! id = chatHistory st !! id).
  { intros id Hid. rewrite Hh. by apply lookup_insert_ne. }
  split; [exact Heq|]. split; [unfold snapshot, entry_or_empty; by rewrite Heq|].
  split; [exact Hne|].
  exists (clearChat st), (commit (clearChat st) ls), (chatHistory (clearChat st)).
  done.
Qed.

Lemma clear_is_local_witness :
  ∃ st' ls' stored,
    perform Clear (setChatHistory
                     (append_to (lit "movies")
                        [ {| m_role := user; content := lit "X"; timestamp := lit "t" |} ])
                     (handleSectionSelect movies initialState),
                   {| ls_currentSection := None; ls_chatHistory := None |})
    = Some (st', ls')
    ∧ ls_chatHistory ls' = Some stored
    ∧ stored !! s_id movies = Some [].
Proof.
  destruct (clear_is_local
              (setChatHistory
                 (append_to (lit "movies")
                    [ {| m_role := user; content := lit "X"; timestamp := lit "t" |} ])
                 (handleSectionSelect movies initialState))
              movies {| ls_currentSection := None; ls_chatHistory := None |}
              eq_refl)
    as (_ & _ & _ & st' & ls' & stored & Hp & _ & Hl & Hs & _).
  exists st', ls', stored. split; [exact Hp|]. split; [exact Hl|exact Hs].
Defined.

(** ** C7: filtering at start-up *)

(** The loop over any list of sections, from any accumulator: an id of
    the list takes the stored entry when there is one, every other id
    keeps what the accumulator has. *)
Lemma filter_loop_lookup (parsedHistory : gmap str (list message))
    (secs : list section) (acc : gmap str (list message)) (id : str) :
  fold_left
    (fun filteredHistory sec =>
       match parsedHistory !! s_id sec with
       | Some v => <[s_id sec := v]> filteredHistory
       | None => filteredHistory
       end) secs acc !! id
  = match parsedHistory !! id with
    | Some v => if bool_decide (id ∈ map s_id secs) then Some v else acc !! id
    | None => acc !! id
    end.
Proof.
  revert acc. induction secs as [|sec secs IH]; intros acc.
  - cbn [fold_left map]. destruct (parsedHistory !! id); [|reflexivity].
    rewrite bool_decide_eq_false_2; [reflexivity|]. apply not_elem_of_nil.
  - cbn [fold_left map]. rewrite IH. clear IH.
    destruct (parsedHistory !! id) as [v|] eqn:Hid.
    + destruct (decide (id = s_id sec)) as [->|Hne].
      * rewrite Hid. rewrite (bool_decide_eq_true_2 (s_id sec ∈ s_id sec :: _))
          by apply list_elem_of_here.
        case_bool_decide; [reflexivity|]. by rewrite lookup_insert_eq.
      * case_bool_decide as Hin.
        -- rewrite bool_decide_eq_true_2; [reflexivity|]. by apply list_elem_of_further.
        -- rewrite bool_decide_eq_false_2.
           ++ destruct (parsedHistory !! s_id sec); [|reflexivity].
              by rewrite lookup_insert_ne.
           ++ intros Hin'. apply elem_of_cons in Hin' as [?|?]; done.
    + destruct (parsedHistory !! s_id sec) as [w|] eqn:Hsec; [|reflexivity].
      rewrite lookup_insert_ne; [reflexivity|]. intros Heq. rewrite Heq in Hsec. congruence.
Qed.

Lemma filterHistory_lookup (parsedHistory : gmap str (list message)) (id : str) :
  filterHistory parsedHistory !! id
  = if bool_decide (id ∈ map s_id sections) then parsedHistory !! id else None.
Proof.
  unfold filterHistory. rewrite filter_loop_lookup, lookup_empty.
  destruct (parsedHistory !! id); by case_bool_decide.
Qed.

(** C7. Loading a stored mapping keeps exactly the entries whose section
    id is in the catalog: such an entry is loaded as stored, any other is
    dropped, and the transcript shown for a dropped id right after
    mounting is empty. *)
Theorem startup_filtering (ls : Storage) (parsedHistory : gmap str (list message))
    (st : AppState) (id : str) :
  ls_chatHistory ls = Some parsedHistory →
  (id ∈ map s_id sections →
     chatHistory (loadEffect ls st) !! id = parsedHistory !! id
     ∧ chatHistory (mount ls).1 !! id = parsedHistory !! id)
  ∧ (id ∉ map s_id sections →
       chatHistory (loadEffect ls st) !! id = None
       ∧ chatHistory (mount ls).1 !! id = None
       ∧ snapshot (mount ls).1 id = []
       ∧ ∃ stored, ls_chatHistory (mount ls).2 = Some stored ∧ stored !! id = None).
Proof.
  intros Hls.
  assert (Hload : ∀ st0, chatHistory (loadEffect ls st0) = filterHistory parsedHistory).
  { intros st0. unfold loadEffect. rewrite Hls. reflexivity. }
  assert (Hmount : chatHistory (mount ls).1 = filterHistory parsedHistory)
    by apply Hload.
  split.
  - intros Hin. rewrite Hmount, Hload, filterHistory_lookup.
    by rewrite bool_decide_eq_true_2.
  - intros Hnin.
    assert (Hnone : filterHistory parsedHistory !! id = None).
    { rewrite filterHistory_lookup. by rewrite bool_decide_eq_false_2. }
    rewrite Hload. split; [exact Hnone|]. split; [by rewrite Hmount|].
    split; [unfold snapshot, entry_or_empty; by rewrite Hmount, Hnone|].
    exists (filterHistory parsedHistory). split; [|exact Hnone].
    unfold mount, commit, saveChatEffect. cbn [snd ls_chatHistory]. by rewrite Hload.
Qed.

Lemma startup_filtering_witness :
  chatHistory (mount stale_storage).1 !! lit "music"
  = Some [ {| m_role := user; content := lit "jazz"; timestamp := lit "t0" |} ]
  ∧ snapshot (mount stale_storage).1 (lit "sports") = [].
Proof.
  split.
  - destruct (startup_filtering stale_storage _ initialState (lit "music") eq_refl)
      as [Hkeep _].
    destruct Hkeep as [_ Hm]; [vm_compute; by repeat constructor|].
    rewrite Hm. vm_compute. reflexivity.
  - destruct (startup_filtering stale_storage _ initialState (lit "sports") eq_refl)
      as [_ Hdrop].
    apply Hdrop. intros Hin. apply list_elem_of_In in Hin.
    repeat (destruct Hin as [Hin | Hin]; [vm_compute in Hin; discriminate|]).
    destruct Hin.
Defined.

(** ** C5: transcripts only grow *)

Lemma handleSubmit_resume_prefix k o now st id :
  snapshot st id `prefix_of` snapshot (handleSubmit_resume k o now st) id.
Proof.
  unfold snapshot.
  destruct (handleSubmit_try k o now st) as [st1|st1] eqn:Htry.
  - destruct o as [ | | |d]; try (by inversion Htry).
    destruct (redirect d) eqn:Hr.
    + destruct (find_section (d_section d)) as [new|] eqn:Hf.
      * destruct (handleSubmit_resume_redirect k d now st new Hr Hf) as [-> _].
        apply entry_append_to_prefix.
      * unfold handleSubmit_try in Htry. rewrite Hr, Hf in Htry. inversion Htry.
    + destruct (handleSubmit_resume_answer k d now st Hr) as [-> _].
      apply entry_append_to_prefix.
  - destruct (handleSubmit_resume_throws k o now st st1 Htry) as [-> _]. done.
Qed.

Lemma handleSubmit_prefix t1 o t2 st st' id :
  handleSubmit t1 o t2 st = Some st' →
  snapshot st id `prefix_of` snapshot st' id.
Proof.
  unfold handleSubmit, handleSubmit_begin.
  destruct (blank (prompt st)); [by intros [= <-]|].
  destruct (currentSection st) as [cur|]; [|done].
  intros [= <-]. etrans; [|apply handleSubmit_resume_prefix].
  unfold snapshot. cbn [chatHistory setChatHistory setPrompt setError setIsTyping
                        setIsLoading].
  apply entry_append_to_prefix.
Qed.

(** A call made through the section picker never meets a null section. *)
Lemma submit_total c st : is_Some (submit c st).
Proof.
  unfold submit, handleSubmit, handleSubmit_begin.
  cbn [prompt currentSection setPrompt handleSectionSelect setError setResult
       setCurrentSection].
  destruct (blank (c_queryText c)); eauto.
Qed.

Lemma submit_all_total calls st : is_Some (submit_all calls st).
Proof.
  revert st. induction calls as [|c calls IH]; intros st; cbn [submit_all]; [eauto|].
  destruct (submit_total c st) as [st' ->]. apply IH.
Qed.

Lemma submit_all_app calls1 calls2 st :
  submit_all (calls1 ++ calls2) st
  = match submit_all calls1 st with
    | Some st1 => submit_all calls2 st1
    | None => None
    end.
Proof.
  revert st. induction calls1 as [|c calls1 IH]; intros st; [reflexivity|].
  rewrite <- app_comm_cons. cbn [submit_all].
  destruct (submit c st); [apply IH|reflexivity].
Qed.

Lemma submit_all_prefix calls st st' id :
  submit_all calls st = Some st' →
  snapshot st id `prefix_of` snapshot st' id.
Proof.
  revert st. induction calls as [|c calls IH]; intros st; cbn [submit_all].
  - by intros [= <-].
  - destruct (submit c st) as [st1|] eqn:Hc; [|done].
    intros Hrest. etrans; [|by apply IH].
    apply (handleSubmit_prefix _ _ _ _ _ id) in Hc. exact Hc.
Qed.

(** C5. Along any sequence of successful submissions, from any state:
    between an earlier point and a later point of the sequence no
    transcript gets shorter, and every message of the earlier transcript
    is, unchanged, at the same position of the later one. *)
Theorem append_only (st : AppState) (earlier later : list call) :
  Forall (fun c => succeeds (c_outcome c) = true) (earlier ++ later) →
  ∃ st1 st2,
    submit_all earlier st = Some st1
    ∧ submit_all (earlier ++ later) st = Some st2
    ∧ ∀ id,
        (length (snapshot st1 id) ≤ length (snapshot st2 id))%nat
        ∧ ∀ i msg, snapshot st1 id !! i = Some msg → snapshot st2 id !! i = Some msg.
Proof.
  intros _.
  destruct (submit_all_total earlier st) as [st1 H1].
  destruct (submit_all_total later st1) as [st2 H2].
  exists st1, st2. split; [exact H1|].
  split; [by rewrite submit_all_app, H1|].
  intros id. pose proof (submit_all_prefix later st1 st2 id H2) as Hpre.
  split; [by apply prefix_length|].
  intros i msg Hi. by eapply prefix_lookup_Some.
Qed.

Lemma append_only_witness :
  ∃ st1 st2,
    submit_all (take 1 two_calls) initialState = Some st1
    ∧ submit_all (take 1 two_calls ++ drop 1 two_calls) initialState = Some st2
    ∧ ∀ id,
        (length (snapshot st1 id) ≤ length (snapshot st2 id))%nat
        ∧ ∀ i msg, snapshot st1 id !! i = Some msg → snapshot st2 id !! i = Some msg.
Proof.
  apply (append_only initialState (take 1 two_calls) (drop 1 two_calls)).
  repeat constructor.
Defined.

(** In a section that answers in place the user message is stored twice:
    once before the request and once more with the answer. *)
Example answer_in_place_transcript :
  (λ st, snapshot st (lit "health")) <$> submit_all (take 1 two_calls) initialState
  = Some [ {| m_role := user; content := lit "a"; timestamp := lit "t1" |};
           {| m_role := user; content := lit "a"; timestamp := lit "t1" |};
           {| m_role := assistant; content := lit "b"; timestamp := lit "t2" |} ].
Proof. vm_compute. reflexivity. Qed.

(** ** C4: persistence *)


Lemma commit_chatHistory st ls : ls_chatHistory (commit st ls) = Some (chatHistory st).
Proof. reflexivity. Qed.

Lemma commit_currentSection st ls cur :
  currentSection st = Some cur → ls_currentSection (commit st ls) = Some (s_id cur).
Proof. intros Hc. unfold commit, saveSectionEffect. by rewrite Hc. Qed.

(** The saving effects write the same items when run twice. *)
Lemma commit_idempotent st ls : commit st (commit st ls) = commit st ls.
Proof.
  unfold commit, saveChatEffect, saveSectionEffect.
  destruct (currentSection st); reflexivity.
Qed.

Lemma handleSubmit_begin_returns now st st1 :
  handleSubmit_begin now st = Some (st1, None) → st1 = st.
Proof.
  unfold handleSubmit_begin. destruct (blank (prompt st)); [by intros [= <-]|].
  destruct (currentSection st); intros [=].
Qed.


(** A submission that issues a request is its two points in a row. *)
Lemma perform_submit t1 o t2 w st1 ls1 k :
  in_flight t1 w = Some (st1, ls1, k) →
  perform (Submit t1 o t2) w = Some (settled k o t2 (st1, ls1)).
Proof.
  destruct w as [st ls]. unfold in_flight, perform, settled.
  destruct (handleSubmit_begin t1 st) as [[st0 [k0|]]|]; [|done..].
  by intros [= <- <- <-].
Qed.



(** ** C9: export as text *)

Section ExportProperties.

Variable toLocaleString : str → str.

Lemma join_from_false (sep acc : str) (l : list str) :
  Js.join_from false sep acc l = acc ++ flat_map (fun x => sep ++ x) l.
Proof.
  revert acc. induction l as [|x l IH]; intros acc; cbn [Js.join_from flat_map].
  - by rewrite app_nil_r.
  - rewrite IH. by rewrite <- !app_assoc.
Qed.

Lemma blocks_document_cons (msg : message) (rest : list message) :
  blocks_document toLocaleString (msg :: rest)
  = export_line toLocaleString msg
    ++ flat_map (fun x => [10; 10] ++ x) (map (export_line toLocaleString) rest).
Proof.
  revert msg. induction rest as [|msg' rest IH]; intros msg.
  - cbn [blocks_document map flat_map]. by rewrite app_nil_r.
  - change (blocks_document toLocaleString (msg :: msg' :: rest))
      with (export_line toLocaleString msg ++ [10; 10]
            ++ blocks_document toLocaleString (msg' :: rest)).
    rewrite IH. reflexivity.
Qed.

(** The [map] and [join] of the source build the document of blocks. *)
Lemma join_blocks_document (transcript : list message) :
  Js.join [10; 10] (map (export_line toLocaleString) transcript)
  = blocks_document toLocaleString transcript.
Proof.
  destruct transcript as [|msg rest]; [reflexivity|].
  rewrite blocks_document_cons. unfold Js.join. cbn [map Js.join_from].
  rewrite join_from_false. reflexivity.
Qed.

(** The template literal of the handler writes the specified block. *)
Lemma export_line_text_block (msg : message) :
  export_line toLocaleString msg = text_block toLocaleString msg.
Proof.
  unfold export_line, text_block, role_label. by destruct (m_role msg).
Qed.

Lemma blocks_document_specified (transcript : list message) :
  blocks_document toLocaleString transcript = specified_text toLocaleString transcript.
Proof.
  unfold specified_text. induction transcript as [|msg rest IH]; [reflexivity|].
  destruct rest as [|msg' rest].
  - cbn [blocks_document map separated_by_blank_lines]. apply export_line_text_block.
  - change (blocks_document toLocaleString (msg :: msg' :: rest))
      with (export_line toLocaleString msg ++ [10; 10]
            ++ blocks_document toLocaleString (msg' :: rest)).
    rewrite IH, export_line_text_block. reflexivity.
Qed.

(** C9. The text [exportAsTXT] produces is a function of the
    transcript of the active section alone: one block
    [[formatted local timestamp] role-label: content] per message, in
    transcript order, a blank line between two blocks; the transcript
    mapping is left as it is, and a second export right after the first
    gives the same text. *)
Theorem export_text_deterministic (st : AppState) (cur : section) :
  currentSection st = Some cur →
  ∃ file,
    (exportAsTXT toLocaleString st).2 = Some file
    ∧ file_content file = specified_text toLocaleString (snapshot st (s_id cur))
    ∧ (∀ i msg, snapshot st (s_id cur) !! i = Some msg →
         map (text_block toLocaleString) (snapshot st (s_id cur)) !! i
         = Some (lit "[" ++ toLocaleString (timestamp msg) ++ lit "] "
                 ++ (match m_role msg with user => lit "You" | assistant => lit "AI" end)
                 ++ lit ": " ++ content msg))
    ∧ chatHistory (exportAsTXT toLocaleString st).1 = chatHistory st
    ∧ (file_content <$> (exportAsTXT toLocaleString
                           (exportAsTXT toLocaleString st).1).2)
      = Some (file_content file)
    ∧ ∀ st2 cur2,
        currentSection st2 = Some cur2 →
        snapshot st2 (s_id cur2) = snapshot st (s_id cur) →
        (file_content <$> (exportAsTXT toLocaleString st2).2)
        = Some (file_content file).
Proof.
  intros Hcur.
  assert (Hexp : ∀ st0 cur0, currentSection st0 = Some cur0 →
            exportAsTXT toLocaleString st0
            = (setToast (Some (lit "Exported as TXT")) st0,
               Some {| file_name :=
                         Js.toLowerCase (s_name cur0) ++ lit "-chat-history.txt";
                       file_content :=
                         specified_text toLocaleString (snapshot st0 (s_id cur0)) |})).
  { intros st0 cur0 H0. unfold exportAsTXT. rewrite H0.
    by rewrite join_blocks_document, blocks_document_specified. }
  rewrite (Hexp st cur Hcur). cbn [fst snd].
  eexists. split; [reflexivity|]. cbn [file_content].
  split; [reflexivity|]. split; [|split; [reflexivity|split]].
  - intros i msg Hi. rewrite list_lookup_fmap, Hi. reflexivity.
  - rewrite (Hexp _ cur) by exact Hcur. reflexivity.
  - intros st2 cur2 H2 Hsame. rewrite (Hexp _ _ H2), Hsame. reflexivity.
Qed.

End ExportProperties.

Lemma export_text_deterministic_witness :
  ∃ file,
    (exportAsTXT (fun ts => lit "<" ++ ts ++ lit ">")
       (setChatHistory
          (append_to (lit "health")
             [ {| m_role := user; content := lit "a"; timestamp := lit "t1" |};
               {| m_role := assistant; content := lit "b"; timestamp := lit "t2" |} ])
          (handleSectionSelect health initialState))).2 = Some file
    ∧ file_content file = lit "[<t1>] You: a" ++ [10; 10] ++ lit "[<t2>] AI: b".
Proof.
  destruct (export_text_deterministic (fun ts => lit "<" ++ ts ++ lit ">")
              (setChatHistory
                 (append_to (lit "health")
                    [ {| m_role := user; content := lit "a"; timestamp := lit "t1" |};
                      {| m_role := assistant; content := lit "b"; timestamp := lit "t2" |} ])
                 (handleSectionSelect health initialState))
              health eq_refl)
    as (file & Hfile & Hcontent & _).
  exists file. split; [exact Hfile|]. rewrite Hcontent. vm_compute. reflexivity.
Defined.


(** ** C6: interrupting a reveal *)

Lemma typingEffect_text txt dsp idx tm :
  text (typingEffect txt dsp idx tm).1 = txt.
Proof. unfold typingEffect, setTimeout. by case_bool_decide. Qed.

(** On a table with nothing armed the effect leaves armed exactly the
    timer of its cleanup, a fresh one. *)
Lemma typingEffect_armed txt dsp idx tm :
  (∀ t, armed tm !! t = None) →
  (∀ t, is_Some (armed (typingEffect txt dsp idx tm).2 !! t)
        ↔ cleanup (typingEffect txt dsp idx tm).1 = Some t)
  ∧ (∀ t, is_Some (armed (typingEffect txt dsp idx tm).2 !! t)
          → (t < next_timer (typingEffect txt dsp idx tm).2)%nat).
Proof.
  intros Hnone. unfold typingEffect, setTimeout. case_bool_decide; cbn.
  - split; intros t.
    + destruct (decide (next_timer tm = t)) as [->|Hne].
      * rewrite lookup_insert_eq. split; eauto.
      * rewrite lookup_insert_ne, Hnone by done. split.
        -- by intros [? [=]].
        -- intros [= ?]. done.
    + destruct (decide (next_timer tm = t)) as [->|Hne]; [lia|].
      rewrite lookup_insert_ne, Hnone by done. by intros [? [=]].
  - split; intros t; rewrite Hnone; [split|]; try by intros [? [=]]. done.
Qed.

(** A timer that is not armed and lies below [next_timer] stays so
    through the effect. *)
Lemma typingEffect_keeps_cancelled txt dsp idx tm t :
  armed tm !! t = None → (t < next_timer tm)%nat →
  armed (typingEffect txt dsp idx tm).2 !! t = None
  ∧ (t < next_timer (typingEffect txt dsp idx tm).2)%nat.
Proof.
  intros Hnone Hlt. unfold typingEffect, setTimeout. case_bool_decide; cbn.
  - rewrite lookup_insert_ne by lia. split; [done|lia].
  - done.
Qed.

Lemma runCleanup_next ty tm : next_timer (runCleanup ty tm) = next_timer tm.
Proof. unfold runCleanup, clearTimeout. by destruct (cleanup ty). Qed.

Lemma runCleanup_None ty tm t :
  armed tm !! t = None → armed (runCleanup ty tm) !! t = None.
Proof.
  intros Hnone. unfold runCleanup, clearTimeout. destruct (cleanup ty) as [t'|]; [|done].
  cbn. rewrite lookup_delete. by case_decide.
Qed.

(** The cleanup of the mounted instance empties the table. *)
Lemma runCleanup_empties ui ty :
  ui_inv ui → typing ui = Some ty →
  ∀ t, armed (runCleanup ty (timers ui)) !! t = None.
Proof.
  intros Hinv Hty t.
  destruct (armed (runCleanup ty (timers ui)) !! t) as [cb|] eqn:Hl; [|done].
  exfalso. unfold runCleanup, clearTimeout in Hl.
  destruct (cleanup ty) as [t'|] eqn:Hc.
  - cbn in Hl. rewrite lookup_delete in Hl. case_decide as Heq; [done|].
    assert (His : is_Some (armed (timers ui) !! t)) by eauto.
    apply (inv_armed ui Hinv) in His as (ty' & Hty' & Hc').
    rewrite Hty in Hty'. injection Hty' as <-. congruence.
  - assert (His : is_Some (armed (timers ui) !! t)) by eauto.
    apply (inv_armed ui Hinv) in His as (ty' & Hty' & Hc').
    rewrite Hty in Hty'. injection Hty' as <-. congruence.
Qed.

Lemma no_typing_empty ui :
  ui_inv ui → typing ui = None → ∀ t, armed (timers ui) !! t = None.
Proof.
  intros Hinv Hty t. destruct (armed (timers ui) !! t) as [cb|] eqn:Hl; [|done].
  assert (His : is_Some (armed (timers ui) !! t)) by eauto.
  apply (inv_armed ui Hinv) in His as (ty' & Hty' & _). congruence.
Qed.

Lemma initialUI_inv : ui_inv initialUI.
Proof.
  split; cbn.
  - intros t. rewrite lookup_empty. split; [by intros [? [=]]|by intros (? & [=] & _)].
  - intros t. rewrite lookup_empty. by intros [? [=]].
  - by intros ty [=].
Qed.

Lemma rerender_inv st' ui : ui_inv ui → ui_inv (rerender st' ui).
Proof.
  intros Hinv. unfold rerender.
  set (tm1 := match typing ui with
              | Some ty => runCleanup ty (timers ui)
              | None => timers ui
              end).
  assert (Hnone : ∀ t, armed tm1 !! t = None).
  { subst tm1. destruct (typing ui) as [ty|] eqn:Hty.
    - by apply runCleanup_empties.
    - by apply no_typing_empty. }
  destruct (typed_message st') as [msg|] eqn:Hmsg.
  - destruct (typingEffect (content msg) [] 0 tm1) as [ty' tm2] eqn:Heff.
    pose proof (typingEffect_armed (content msg) [] 0 tm1 Hnone) as [Ha Hb].
    pose proof (typingEffect_text (content msg) [] 0 tm1) as Ht.
    rewrite Heff in Ha, Hb, Ht. cbn [fst snd] in Ha, Hb, Ht.
    split; cbn [app timers typing].
    + intros t. rewrite Ha. split.
      * intros Hc. by exists ty'.
      * by intros (ty & [= <-] & Hc).
    + exact Hb.
    + intros ty [= <-]. by exists msg.
  - split; cbn [app timers typing].
    + intros t. rewrite Hnone. split; [by intros [? [=]]|by intros (? & [=] & _)].
    + intros t. rewrite Hnone. by intros [? [=]].
    + by intros ty [=].
Qed.

Lemma fire_app timer ui : app (fire timer ui) = app ui.
Proof.
  unfold fire. destruct (armed (timers ui) !! timer); [|done].
  destruct (typing ui) as [ty|]; [|done].
  case_bool_decide; [|done].
  by destruct (typingEffect _ _ _ _).
Qed.

Lemma fire_inv timer ui : ui_inv ui → ui_inv (fire timer ui).
Proof.
  intros Hinv. unfold fire.
  destruct (armed (timers ui) !! timer) as [cb|] eqn:Harmed; [|done].
  assert (His : is_Some (armed (timers ui) !! timer)) by eauto.
  apply (inv_armed ui Hinv) in His as (ty & Hty & Hc).
  rewrite Hty, (bool_decide_eq_true_2 _ Hc).
  set (tm1 := {| armed := delete timer (armed (timers ui));
                 next_timer := next_timer (timers ui) |}).
  assert (Hnone : ∀ t, armed (runCleanup ty tm1) !! t = None).
  { intros t. apply runCleanup_None. subst tm1. cbn.
    pose proof (runCleanup_empties ui ty Hinv Hty t) as He.
    unfold runCleanup, clearTimeout in He. by rewrite Hc in He. }
  destruct (typingEffect (text ty)
              (displayedText ty ++ char_at (tick_text cb) (tick_currentIndex cb))
              (S (currentIndex ty)) (runCleanup ty tm1)) as [ty' tm2] eqn:Heff.
  pose proof (typingEffect_armed (text ty)
                (displayedText ty ++ char_at (tick_text cb) (tick_currentIndex cb))
                (S (currentIndex ty)) (runCleanup ty tm1) Hnone) as [Ha Hb].
  pose proof (typingEffect_text (text ty)
                (displayedText ty ++ char_at (tick_text cb) (tick_currentIndex cb))
                (S (currentIndex ty)) (runCleanup ty tm1)) as Ht.
  rewrite Heff in Ha, Hb, Ht. cbn [fst snd] in Ha, Hb, Ht.
  split; cbn [app timers typing].
  - intros t. rewrite Ha. split.
    + intros Hc'. by exists ty'.
    + by intros (ty0 & [= <-] & Hc').
  - exact Hb.
  - intros ty0 [= <-]. destruct (inv_text ui Hinv ty Hty) as (msg & Hm & Htxt).
    exists msg. split; [exact Hm|congruence].
Qed.

Lemma reachable_inv ui : rtc ui_step initialUI ui → ui_inv ui.
Proof.
  intros Hreach. revert ui Hreach. apply rtc_ind_r.
  - apply initialUI_inv.
  - intros mid ui _ Hstep IH.
    destruct Hstep; [by apply rerender_inv|by apply fire_inv].
Qed.

Lemma cancelled_step timer ui ui' :
  ui_step ui ui' → cancelled timer ui → cancelled timer ui'.
Proof.
  intros Hstep [Hnone Hlt]. destruct Hstep as [st' ui|t ui]; unfold cancelled.
  - unfold rerender.
    set (tm1 := match typing ui with
                | Some ty => runCleanup ty (timers ui)
                | None => timers ui
                end).
    assert (H1 : armed tm1 !! timer = None ∧ (timer < next_timer tm1)%nat).
    { subst tm1. destruct (typing ui) as [ty|]; [|done].
      split; [by apply runCleanup_None|by rewrite runCleanup_next]. }
    destruct (typed_message st') as [msg|]; [|exact H1].
    pose proof (typingEffect_keeps_cancelled (content msg) [] 0 tm1 timer
                  (proj1 H1) (proj2 H1)) as Hk.
    by destruct (typingEffect (content msg) [] 0 tm1).
  - unfold fire. destruct (armed (timers ui) !! t) as [cb|] eqn:Ht; [|done].
    set (tm1 := {| armed := delete t (armed (timers ui));
                   next_timer := next_timer (timers ui) |}).
    assert (H1 : armed tm1 !! timer = None ∧ (timer < next_timer tm1)%nat).
    { subst tm1. cbn. split; [|done]. rewrite lookup_delete. by case_decide. }
    destruct (typing ui) as [ty|]; [|exact H1].
    case_bool_decide; [|exact H1].
    pose proof (typingEffect_keeps_cancelled (text ty)
                  (displayedText ty ++ char_at (tick_text cb) (tick_currentIndex cb))
                  (S (currentIndex ty)) (runCleanup ty tm1) timer
                  (runCleanup_None _ _ _ (proj1 H1))) as Hk.
    rewrite runCleanup_next in Hk. specialize (Hk (proj2 H1)).
    by destruct (typingEffect _ _ _ _).
Qed.

Lemma cancelled_steps timer ui ui' :
  rtc ui_step ui ui' → cancelled timer ui → cancelled timer ui'.
Proof. induction 1; eauto using cancelled_step. Qed.

(** Rendering again cancels the timer of the mounted instance. *)
Lemma rerender_cancels st' ui ty timer :
  ui_inv ui → typing ui = Some ty → cleanup ty = Some timer →
  cancelled timer (rerender st' ui).
Proof.
  intros Hinv Hty Hc.
  assert (Harmed : is_Some (armed (timers ui) !! timer)).
  { apply (inv_armed ui Hinv). eauto. }
  pose proof (inv_below ui Hinv timer Harmed) as Hlt.
  unfold cancelled, rerender. rewrite Hty.
  assert (H1 : armed (runCleanup ty (timers ui)) !! timer = None
               ∧ (timer < next_timer (runCleanup ty (timers ui)))%nat).
  { split; [by apply runCleanup_empties|by rewrite runCleanup_next]. }
  destruct (typed_message st') as [msg|]; [|exact H1].
  pose proof (typingEffect_keeps_cancelled (content msg) [] 0 _ timer
                (proj1 H1) (proj2 H1)) as Hk.
  by destruct (typingEffect (content msg) [] 0 _).
Qed.

Lemma handleSubmit_begin_prefix now st st' k id :
  handleSubmit_begin now st = Some (st', Some k) →
  snapshot st id `prefix_of` snapshot st' id.
Proof.
  unfold handleSubmit_begin. destruct (blank (prompt st)); [done|].
  destruct (currentSection st) as [cur|]; [|done].
  intros [= <- _]. unfold snapshot.
  cbn [chatHistory setChatHistory setPrompt setError setIsTyping setIsLoading].
  apply entry_append_to_prefix.
Qed.

Lemma rerender_app st' ui : app (rerender st' ui) = st'.
Proof.
  unfold rerender. destruct (typed_message st'); [|done].
  by destruct (typingEffect _ _ _ _).
Qed.

(** C6. While a reveal is in progress its timer is pending.  Once [App]
    renders again, for a new submission or for any other change of its
    state, that timer is out of the table and stays out whatever happens
    later, so its callback never runs; a timer never writes the
    transcripts, and after a new submission the message that was being
    revealed is in its transcript, at its position, with its full
    text. *)
Theorem reveal_interruption_safe (ui later : UI) (ty : Typing) (timer : nat)
    (st' : AppState) :
  rtc ui_step initialUI ui →
  typing ui = Some ty →
  cleanup ty = Some timer →
  rtc ui_step (rerender st' ui) later →
  is_Some (armed (timers ui) !! timer)
  ∧ armed (timers later) !! timer = None
  ∧ fire timer later = later
  ∧ (∀ t u, app (fire t u) = app u)
  ∧ ∃ cur i msg,
      currentSection (app ui) = Some cur
      ∧ last (snapshot (app ui) (s_id cur)) = Some msg
      ∧ snapshot (app ui) (s_id cur) !! i = Some msg
      ∧ content msg = text ty
      ∧ ∀ now k,
          handleSubmit_begin now (app ui) = Some (st', Some k) →
          snapshot (app (rerender st' ui)) (s_id cur) !! i = Some msg.
Proof.
  intros Hreach Hty Hc Hlater.
  pose proof (reachable_inv ui Hreach) as Hinv.
  assert (Hcan : cancelled timer later).
  { eapply cancelled_steps; [exact Hlater|]. by eapply rerender_cancels. }
  split; [apply (inv_armed ui Hinv); eauto|].
  split; [exact (proj1 Hcan)|].
  split; [unfold fire; by rewrite (proj1 Hcan)|].
  split; [apply fire_app|].
  destruct (inv_text ui Hinv ty Hty) as (msg & Hmsg & Htxt).
  unfold typed_message in Hmsg.
  destruct (currentSection (app ui)) as [cur|] eqn:Hcur; [|done].
  destruct (isTyping (app ui)); [|done].
  exists cur, (pred (length (snapshot (app ui) (s_id cur)))), msg.
  split; [reflexivity|]. split; [exact Hmsg|].
  assert (Hi : snapshot (app ui) (s_id cur)
                 !! pred (length (snapshot (app ui) (s_id cur))) = Some msg).
  { rewrite <- last_lookup. exact Hmsg. }
  split; [exact Hi|]. split; [done|].
  intros now k Hbeg. rewrite rerender_app.
  eapply prefix_lookup_Some; [exact Hi|].
  by eapply handleSubmit_begin_prefix.
Qed.

Lemma reveal_interruption_safe_witness :
  displayedText <$> typing revealing = Some (lit "f")
  ∧ is_Some (armed (timers revealing) !! 2%nat)
  ∧ armed (timers (fire 3 (rerender second_pending revealing))) !! 2%nat = None
  ∧ fire 2 (fire 3 (rerender second_pending revealing))
    = fire 3 (rerender second_pending revealing).
Proof.
  split; [reflexivity|].
  destruct (reveal_interruption_safe revealing
              (fire 3 (rerender second_pending revealing))
              {| text := lit "first"; displayedText := lit "f"; currentIndex := 1;
                 cleanup := Some 2%nat |}
              2%nat second_pending) as (Harmed & Hnone & Hfire & _).
  - exact (rtc_r _ _ _
             (rtc_r _ _ _ (rtc_once _ _ (step_render first_pending initialUI))
                (step_render second_question _))
             (step_fire 1 _)).
  - reflexivity.
  - reflexivity.
  - exact (rtc_once _ _ (step_fire 3 _)).
  - split; [exact Harmed|]. split; [exact Hnone|exact Hfire].
Defined.

(** * Further properties of the handlers *)

(** ** The guard of [handleSubmit] *)

Lemma trimStart_nil (s : str) :
  Js.trimStart s = [] ↔ forallb Js.isWhiteSpace s = true.
Proof.
  induction s as [|c s IH]; cbn [Js.trimStart forallb]; [done|].
  destruct (Js.isWhiteSpace c); cbn [andb]; [exact IH|done].
Qed.

Lemma trimStart_head (s : str) (c : N) (r : str) :
  Js.trimStart s = c :: r → Js.isWhiteSpace c = false.
Proof.
  induction s as [|c' s IH]; cbn [Js.trimStart]; [done|].
  destruct (Js.isWhiteSpace c') eqn:Hc; [exact IH|]. by intros [= <- _].
Qed.

Lemma trim_nil (s : str) : Js.trim s = [] ↔ Js.trimStart s = [].
Proof.
  unfold Js.trim, Js.trimEnd. split.
  - intros Ht. destruct (Js.trimStart s) as [|c r] eqn:Hs; [done|exfalso].
    apply trimStart_head in Hs.
    assert (Hr : Js.trimStart (rev (c :: r)) = []).
    { destruct (Js.trimStart (rev (c :: r))); [done|].
      apply (f_equal length) in Ht. rewrite length_rev in Ht. done. }
    apply trimStart_nil in Hr. rewrite forallb_forall in Hr.
    specialize (Hr c). rewrite Hr in Hs; [done|].
    apply in_rev. rewrite rev_involutive. by left.
  - by intros ->.
Qed.

(** The guard [!prompt.trim()] rejects exactly the prompts made of
    white space and line terminators only (the empty one among them):
    then, and only then, the handler returns with nothing done. *)
Theorem guard_rejects_white_space_only (now : str) (st : AppState) :
  (blank (prompt st) = true ↔ ∀ c, c ∈ prompt st → Js.isWhiteSpace c = true)
  ∧ (handleSubmit_begin now st = Some (st, None)
     ↔ ∀ c, c ∈ prompt st → Js.isWhiteSpace c = true).
Proof.
  assert (Hb : blank (prompt st) = true
               ↔ ∀ c, c ∈ prompt st → Js.isWhiteSpace c = true).
  { unfold blank. rewrite negb_true_iff.
    transitivity (Js.trim (prompt st) = []).
    { unfold Js.truthy. destruct (Js.trim (prompt st)); split; done. }
    rewrite trim_nil, trimStart_nil, forallb_forall.
    split; intros H c Hc; apply H; by apply list_elem_of_In. }
  split; [exact Hb|]. rewrite <- Hb. unfold handleSubmit_begin.
  destruct (blank (prompt st)); [done|].
  split; [|done]. by destruct (currentSection st).
Qed.

(** ** The paths of [handleSubmit] *)

Lemma find_section_catalog (s : section) :
  s ∈ sections → find_section (Some (s_id s)) = Some s.
Proof.
  intros Hs. apply list_elem_of_In in Hs.
  repeat (destruct Hs as [<- | Hs]; [reflexivity|]). destruct Hs.
Qed.

Lemma find_section_Some (wanted : option str) (s : section) :
  find_section wanted = Some s → s ∈ sections ∧ wanted = Some (s_id s).
Proof.
  unfold find_section. intros Hf. apply find_some in Hf as [Hin Hdec].
  apply bool_decide_eq_true in Hdec. split; [by apply list_elem_of_In|done].
Qed.

(** An answer that stays in the section of the question is appended
    together with a second copy of the user message: the transcript
    grows by the user message twice, then the answer.  No other
    transcript changes, the section stays active, no error is set. *)
Theorem answer_in_place (st : AppState) (cur : section) (X t1 t2 : str) (d : data) :
  currentSection st = Some cur →
  prompt st = X →
  blank X = false →
  redirect d = false →
  ∃ st',
    handleSubmit t1 (Json d) t2 st = Some st'
    ∧ snapshot st' (s_id cur)
      = snapshot st (s_id cur)
        ++ [ {| m_role := user; content := X; timestamp := t1 |};
             {| m_role := user; content := X; timestamp := t1 |};
             {| m_role := assistant; content := response d; timestamp := t2 |} ]
    ∧ (∀ id, id ≠ s_id cur → chatHistory st' !! id = chatHistory st !! id)
    ∧ currentSection st' = Some cur
    ∧ error st' = None
    ∧ result st' = Some d.
Proof.
  intros Hcur HX Hb Hr. subst X.
  destruct (handleSubmit_Some t1 (Json d) t2 st cur Hb Hcur)
    as (st1 & k & Hbeg & Hrun & Hk & Hu & Hh & Hc1).
  destruct (handleSubmit_resume_answer k d t2 st1 Hr) as (Hh' & Hc' & He & _).
  eexists. split; [exact Hrun|]. split; [|split; [|split; [|split]]].
  - unfold snapshot. rewrite Hh', Hh, Hk, Hu, !entry_append_to_eq.
    by rewrite <- app_assoc.
  - intros id Hne. rewrite Hh', Hh, Hk. by rewrite !lookup_append_to_ne.
  - by rewrite Hc'.
  - rewrite He. unfold handleSubmit_begin in Hbeg. rewrite Hb, Hcur in Hbeg.
    by injection Hbeg as <- _.
  - unfold handleSubmit_resume, handleSubmit_try. by rewrite Hr.
Qed.

Lemma answer_in_place_witness :
  ∃ st',
    handleSubmit (lit "t1")
      (Json {| response := lit "Y"; redirect := false; d_section := None |})
      (lit "t2") (setPrompt (lit "X") (handleSectionSelect music initialState))
    = Some st'
    ∧ snapshot st' (s_id music)
      = [ {| m_role := user; content := lit "X"; timestamp := lit "t1" |};
          {| m_role := user; content := lit "X"; timestamp := lit "t1" |};
          {| m_role := assistant; content := lit "Y"; timestamp := lit "t2" |} ].
Proof.
  destruct (answer_in_place
              (setPrompt (lit "X") (handleSectionSelect music initialState))
              music (lit "X") (lit "t1") (lit "t2")
              {| response := lit "Y"; redirect := false; d_section := None |}
              eq_refl eq_refl eq_refl eq_refl) as (st' & Hrun & Hs & _).
  exists st'. split; [exact Hrun|]. rewrite Hs. reflexivity.
Defined.

(** A redirect to any section of the catalog: the target gets the user
    message and the answer, the section of the question keeps the user
    message alone, every other transcript is untouched, the target
    becomes the active section and the toast names both sections.  When
    the target is the section of the question itself, its transcript
    grows by the user message twice, then the answer. *)
Theorem redirect_to_catalog_section (st : AppState) (cur new : section)
    (X t1 t2 : str) (d : data) :
  currentSection st = Some cur →
  prompt st = X →
  blank X = false →
  redirect d = true →
  new ∈ sections →
  d_section d = Some (s_id new) →
  ∃ st',
    handleSubmit t1 (Json d) t2 st = Some st'
    ∧ currentSection st' = Some new
    ∧ toast st' = Some (switched_toast cur new)
    ∧ error st' = None
    ∧ (∀ id, id ≠ s_id cur → id ≠ s_id new →
         chatHistory st' !! id = chatHistory st !! id)
    ∧ (s_id new ≠ s_id cur →
         snapshot st' (s_id new)
         = snapshot st (s_id new)
           ++ [ {| m_role := user; content := X; timestamp := t1 |};
                {| m_role := assistant; content := response d; timestamp := t2 |} ]
         ∧ snapshot st' (s_id cur)
           = snapshot st (s_id cur)
             ++ [ {| m_role := user; content := X; timestamp := t1 |} ])
    ∧ (s_id new = s_id cur →
         snapshot st' (s_id cur)
         = snapshot st (s_id cur)
           ++ [ {| m_role := user; content := X; timestamp := t1 |};
                {| m_role := user; content := X; timestamp := t1 |};
                {| m_role := assistant; content := response d; timestamp := t2 |} ]).
Proof.
  intros Hcur HX Hb Hr Hnew Hd. subst X.
  destruct (handleSubmit_Some t1 (Json d) t2 st cur Hb Hcur)
    as (st1 & k & Hbeg & Hrun & Hk & Hu & Hh & Hc1).
  assert (Hfind : find_section (d_section d) = Some new).
  { rewrite Hd. by apply find_section_catalog. }
  destruct (handleSubmit_resume_redirect k d t2 st1 new Hr Hfind)
    as (Hh' & Hc' & He & _).
  eexists. split; [exact Hrun|]. split; [exact Hc'|].
  split; [|split; [|split; [|split]]].
  - unfold handleSubmit_resume, handleSubmit_try. rewrite Hr, Hfind. by rewrite Hk.
  - rewrite He. unfold handleSubmit_begin in Hbeg. rewrite Hb, Hcur in Hbeg.
    by injection Hbeg as <- _.
  - intros id H1 H2. rewrite Hh', Hh. by rewrite !lookup_append_to_ne.
  - intros Hne. unfold snapshot. rewrite Hh', Hh, Hu. split.
    + rewrite entry_append_to_eq, entry_append_to_ne; done.
    + rewrite entry_append_to_ne by done. apply entry_append_to_eq.
  - intros Heq. unfold snapshot. rewrite Hh', Hh, Hu, Heq, !entry_append_to_eq.
    by rewrite <- app_assoc.
Qed.

Lemma redirect_to_catalog_section_witness :
  ∃ st',
    handleSubmit (lit "t1")
      (Json {| response := lit "Y"; redirect := true; d_section := Some (lit "movies") |})
      (lit "t2") (setPrompt (lit "X") (handleSectionSelect music initialState))
    = Some st'
    ∧ currentSection st' = Some movies
    ∧ snapshot st' (lit "movies")
      = [ {| m_role := user; content := lit "X"; timestamp := lit "t1" |};
          {| m_role := assistant; content := lit "Y"; timestamp := lit "t2" |} ]
    ∧ snapshot st' (lit "music")
      = [ {| m_role := user; content := lit "X"; timestamp := lit "t1" |} ].
Proof.
  destruct (redirect_to_catalog_section
              (setPrompt (lit "X") (handleSectionSelect music initialState))
              music movies (lit "X") (lit "t1") (lit "t2")
              {| response := lit "Y"; redirect := true; d_section := Some (lit "movies") |}
              eq_refl eq_refl eq_refl eq_refl)
    as (st' & Hrun & Hc & _ & _ & _ & Hne & _).
  - apply list_elem_of_In. vm_compute. tauto.
  - reflexivity.
  - destruct Hne as [Hm Hc']; [vm_compute; discriminate|].
    exists st'. split; [exact Hrun|]. split; [exact Hc|].
    split; [exact Hm|exact Hc'].
Defined.

Lemma guard_rejects_white_space_only_witness :
  handleSubmit_begin (lit "t")
    (setPrompt [9; 32; 160; 10] (handleSectionSelect health initialState))
  = Some (setPrompt [9; 32; 160; 10] (handleSectionSelect health initialState), None).
Proof.
  apply (proj2 (guard_rejects_white_space_only (lit "t")
                  (setPrompt [9; 32; 160; 10] (handleSectionSelect health initialState)))).
  intros c Hc. apply list_elem_of_In in Hc.
  repeat (destruct Hc as [<- | Hc]; [reflexivity|]). destruct Hc.
Defined.

Lemma handleSubmit_try_succeeds k o now st :
  match handleSubmit_try k o now st with
  | inl _ => succeeds o = true
  | inr _ => succeeds o = false
  end.
Proof.
  unfold handleSubmit_try, succeeds. destruct o as [ | | |d]; try done.
  destruct (redirect d); [|done]. by destruct (find_section (d_section d)).
Qed.

(** However the request settles, a submission that passed the guard
    ends with both flags released and the prompt emptied; the error cell
    holds the connection message exactly when the [try] block threw and
    is empty otherwise, and the result cell changes only on success. *)
Theorem submission_settles (st : AppState) (cur : section) (t1 t2 : str)
    (o : fetch_outcome) :
  currentSection st = Some cur →
  blank (prompt st) = false →
  ∃ st',
    handleSubmit t1 o t2 st = Some st'
    ∧ isLoading st' = false
    ∧ isTyping st' = false
    ∧ prompt st' = []
    ∧ error st' = (if succeeds o then None else Some connection_error)
    ∧ result st' = (match o with
                    | Json d => if succeeds o then Some d else result st
                    | _ => result st
                    end).
Proof.
  intros Hcur Hb. unfold handleSubmit, handleSubmit_begin. rewrite Hb, Hcur.
  eexists. split; [reflexivity|].
  unfold handleSubmit_resume.
  pose proof (handleSubmit_try_succeeds
                {| k_currentSection := cur;
                   k_userMessage := {| m_role := user; content := prompt st;
                                       timestamp := t1 |};
                   k_request := {| req_prompt := prompt st;
                                   req_current_section := s_id cur |} |}
                o t2
                (setChatHistory
                   (append_to (s_id cur)
                      [{| m_role := user; content := prompt st; timestamp := t1 |}])
                   (setPrompt [] (setError None (setIsTyping true (setIsLoading true st))))))
    as Hs.
  destruct (handleSubmit_try _ o t2 _) as [st2|st2] eqn:Htry; rewrite Hs;
    unfold handleSubmit_try in Htry.
  - destruct o as [ | | |d]; try done. unfold succeeds in Hs.
    destruct (redirect d).
    + destruct (find_section (d_section d)); [|done]. by injection Htry as <-.
    + by injection Htry as <-.
  - destruct o as [ | | |d]; try (by injection Htry as <-).
    unfold succeeds in Hs. destruct (redirect d); [|done].
    destruct (find_section (d_section d)); [done|]. by injection Htry as <-.
Qed.

Lemma submission_settles_witness :
  ∃ st',
    handleSubmit (lit "t1") JsonRejects (lit "t2")
      (setPrompt (lit "X") (handleSectionSelect health initialState)) = Some st'
    ∧ isLoading st' = false ∧ isTyping st' = false ∧ prompt st' = []
    ∧ error st' = Some connection_error
    ∧ result st' = None.
Proof.
  apply (submission_settles
           (setPrompt (lit "X") (handleSectionSelect health initialState))
           health (lit "t1") (lit "t2") JsonRejects); reflexivity.
Defined.

(** ** While the request is in flight *)

Lemma do_meanwhile_isLoading st m : isLoading (do_meanwhile st m) = isLoading st.
Proof. destruct m; cbn; try done. unfold clearChat. by destruct (currentSection st). Qed.

Lemma meanwhile_isLoading st ms :
  isLoading (fold_left do_meanwhile ms st) = isLoading st.
Proof.
  revert st. induction ms as [|m ms IH]; intros st; cbn [fold_left]; [done|].
  by rewrite IH, do_meanwhile_isLoading.
Qed.

(** Once the button has sent a request, whatever the user does before
    it settles (edit the prompt, pick an example, clear the chat, leave
    the section, select another), submitting through the button does
    nothing: at most one request is in flight.  When the request has
    settled the button works again for a non-blank prompt. *)
Theorem one_request_in_flight (st st1 : AppState) (k : suspended) (now now' : str)
    (ms : list meanwhile) :
  clickSubmit now st = Some (st1, Some k) →
  isLoading st = false
  ∧ clickSubmit now' (fold_left do_meanwhile ms st1)
    = Some (fold_left do_meanwhile ms st1, None)
  ∧ ∀ o t2 q,
      blank q = false →
      submitDisabled
        (setPrompt q (handleSubmit_resume k o t2 (fold_left do_meanwhile ms st1)))
      = false.
Proof.
  intros Hclick. unfold clickSubmit in Hclick.
  destruct (submitDisabled st) eqn:Hdis; [done|].
  unfold submitDisabled in Hdis. apply orb_false_iff in Hdis as [Hl Hb].
  split; [exact Hl|].
  assert (Hl1 : isLoading st1 = true).
  { unfold handleSubmit_begin in Hclick. rewrite Hb in Hclick.
    destruct (currentSection st); [|done]. by injection Hclick as <- _. }
  split.
  - unfold clickSubmit, submitDisabled. by rewrite meanwhile_isLoading, Hl1.
  - intros o t2 q Hq. unfold submitDisabled.
    cbn [prompt setPrompt isLoading]. rewrite Hq.
    unfold handleSubmit_resume. done.
Qed.

Lemma one_request_in_flight_witness :
  clickSubmit (lit "t2")
    (fold_left do_meanwhile [ClearChat; GoBack; PickSection movies; TypePrompt (lit "again")]
       first_pending)
  = Some (fold_left do_meanwhile
            [ClearChat; GoBack; PickSection movies; TypePrompt (lit "again")]
            first_pending, None).
Proof.
  apply (one_request_in_flight
           (setPrompt (lit "first") (handleSectionSelect health initialState))
           first_pending first_request (lit "t1") (lit "t2")
           [ClearChat; GoBack; PickSection movies; TypePrompt (lit "again")]).
  reflexivity.
Defined.

(** The answer goes to the section the question was asked in, whatever
    section is shown when the request settles: it is appended, after a
    copy of the user message, to the transcript that section has by
    then (an emptied one after a clear), the other transcripts and the
    section shown stay as the user left them.  A redirect, in contrast,
    takes the user to the target section. *)
Theorem answer_routed_to_asking_section (st st1 : AppState) (k : suspended)
    (cur : section) (t1 t2 : str) (d : data) (ms : list meanwhile) :
  currentSection st = Some cur →
  handleSubmit_begin t1 st = Some (st1, Some k) →
  let mid := fold_left do_meanwhile ms st1 in
  let u := {| m_role := user; content := prompt st; timestamp := t1 |} in
  let a := {| m_role := assistant; content := response d; timestamp := t2 |} in
  (redirect d = false →
     snapshot (handleSubmit_resume k (Json d) t2 mid) (s_id cur)
     = snapshot mid (s_id cur) ++ [u; a]
     ∧ (∀ id, id ≠ s_id cur →
          chatHistory (handleSubmit_resume k (Json d) t2 mid) !! id
          = chatHistory mid !! id)
     ∧ currentSection (handleSubmit_resume k (Json d) t2 mid) = currentSection mid)
  ∧ (∀ new, redirect d = true → find_section (d_section d) = Some new →
       snapshot (handleSubmit_resume k (Json d) t2 mid) (s_id new)
       = snapshot mid (s_id new) ++ [u; a]
       ∧ currentSection (handleSubmit_resume k (Json d) t2 mid) = Some new).
Proof.
  intros Hcur Hbeg mid u a.
  assert (Hk : k_currentSection k = cur ∧ k_userMessage k = u).
  { unfold handleSubmit_begin in Hbeg. destruct (blank (prompt st)); [done|].
    rewrite Hcur in Hbeg. by injection Hbeg as _ <-. }
  destruct Hk as [Hkc Hku]. split.
  - intros Hr. destruct (handleSubmit_resume_answer k d t2 mid Hr) as (Hh & Hc & _).
    rewrite Hkc, Hku in Hh. split; [|split; [|exact Hc]].
    + unfold snapshot. rewrite Hh. apply entry_append_to_eq.
    + intros id Hne. rewrite Hh. by apply lookup_append_to_ne.
  - intros new Hr Hf.
    destruct (handleSubmit_resume_redirect k d t2 mid new Hr Hf) as (Hh & Hc & _).
    rewrite Hku in Hh. split; [|exact Hc].
    unfold snapshot. rewrite Hh. apply entry_append_to_eq.
Qed.

Lemma answer_routed_to_asking_section_witness :
  snapshot
    (handleSubmit_resume first_request
       (Json {| response := lit "Y"; redirect := false; d_section := None |}) (lit "t2")
       (fold_left do_meanwhile [ClearChat; GoBack; PickSection movies] first_pending))
    (s_id health)
  = [ {| m_role := user; content := lit "first"; timestamp := lit "t1" |};
      {| m_role := assistant; content := lit "Y"; timestamp := lit "t2" |} ]
  ∧ currentSection
      (handleSubmit_resume first_request
         (Json {| response := lit "Y"; redirect := false; d_section := None |}) (lit "t2")
         (fold_left do_meanwhile [ClearChat; GoBack; PickSection movies] first_pending))
    = Some movies.
Proof.
  destruct (answer_routed_to_asking_section
              (setPrompt (lit "first") (handleSectionSelect health initialState))
              first_pending first_request health (lit "t1") (lit "t2")
              {| response := lit "Y"; redirect := false; d_section := None |}
              [ClearChat; GoBack; PickSection movies] eq_refl eq_refl) as [Hans _].
  destruct (Hans eq_refl) as (Hs & _ & Hc).
  split; [rewrite Hs; reflexivity|rewrite Hc; reflexivity].
Defined.

(** * The stored items over a session *)

(** What a session keeps true of the state and the storage. *)
Record world_inv (w : AppState * Storage) : Prop := {
  wi_sync : ls_chatHistory w.2 = Some (chatHistory w.1);
  wi_keys : ∀ id, is_Some (chatHistory w.1 !! id) → id ∈ map s_id sections;
  wi_section : ∀ cur, currentSection w.1 = Some cur →
                      cur ∈ sections ∧ ls_currentSection w.2 = Some (s_id cur)
}.

Lemma catalog_id_truthy (s : section) : s ∈ sections → Js.truthy (s_id s) = true.
Proof.
  intros Hs. apply list_elem_of_In in Hs.
  repeat (destruct Hs as [<- | Hs]; [reflexivity|]). destruct Hs.
Qed.

Lemma catalog_id_elem (s : section) : s ∈ sections → s_id s ∈ map s_id sections.
Proof. intros Hs. apply list_elem_of_fmap. by exists s. Qed.

Lemma loadEffect_chatHistory ls st :
  chatHistory (loadEffect ls st)
  = match ls_chatHistory ls with
    | Some parsedHistory => filterHistory parsedHistory
    | None => chatHistory st
    end.
Proof.
  unfold loadEffect. destruct (ls_chatHistory ls); [reflexivity|].
  destruct (ls_currentSection ls) as [saved|]; [|done].
  destruct (Js.truthy saved); [|done]. by destruct (find_section (Some saved)).
Qed.

Lemma loadEffect_currentSection ls st :
  currentSection (loadEffect ls st)
  = match ls_currentSection ls with
    | Some savedSection =>
        if Js.truthy savedSection then
          match find_section (Some savedSection) with
          | Some sec => Some sec
          | None => currentSection st
          end
        else currentSection st
    | None => currentSection st
    end.
Proof.
  unfold loadEffect.
  destruct (ls_currentSection ls) as [saved|];
    [destruct (Js.truthy saved); [destruct (find_section (Some saved))|]|];
    by destruct (ls_chatHistory ls).
Qed.

Lemma mount_inv ls0 : world_inv (mount ls0).
Proof.
  unfold mount. split; cbn [fst snd].
  - apply commit_chatHistory.
  - intros id. rewrite loadEffect_chatHistory.
    destruct (ls_chatHistory ls0) as [parsed|].
    + rewrite filterHistory_lookup. case_bool_decide; [done|]. by intros [? [=]].
    + cbn. rewrite lookup_empty. by intros [? [=]].
  - intros cur Hcur. split; [|by apply commit_currentSection].
    rewrite loadEffect_currentSection in Hcur.
    destruct (ls_currentSection ls0) as [saved|]; [|done].
    destruct (Js.truthy saved); [|done].
    destruct (find_section (Some saved)) as [sec|] eqn:Hf; [|done].
    injection Hcur as <-. by apply find_section_Some in Hf as [? _].
Qed.

Lemma append_to_keys h id ms id' :
  is_Some (append_to id ms h !! id') → id' = id ∨ is_Some (h !! id').
Proof.
  unfold append_to. destruct (decide (id = id')) as [->|Hne]; [by left|].
  rewrite lookup_insert_ne by done. by right.
Qed.

(** The transcripts and the active section after a resumption, by the
    way the request settled. *)
Lemma handleSubmit_resume_cases k o now st :
  (chatHistory (handleSubmit_resume k o now st) = chatHistory st
   ∧ (currentSection (handleSubmit_resume k o now st) = currentSection st
      ∨ currentSection (handleSubmit_resume k o now st) = None))
  ∨ (∃ ms, chatHistory (handleSubmit_resume k o now st)
           = append_to (s_id (k_currentSection k)) ms (chatHistory st)
           ∧ currentSection (handleSubmit_resume k o now st) = currentSection st)
  ∨ (∃ new ms, new ∈ sections
               ∧ chatHistory (handleSubmit_resume k o now st)
                 = append_to (s_id new) ms (chatHistory st)
               ∧ currentSection (handleSubmit_resume k o now st) = Some new).
Proof.
  destruct o as [ | | |d]; try (left; split; [done|by left]).
  destruct (redirect d) eqn:Hr.
  - destruct (find_section (d_section d)) as [new|] eqn:Hf.
    + right; right. destruct (handleSubmit_resume_redirect k d now st new Hr Hf)
        as (Hh & Hc & _).
      exists new. eexists. split; [by apply find_section_Some in Hf as [? _]|done].
    + left. unfold handleSubmit_resume, handleSubmit_try. rewrite Hr, Hf.
      split; [done|by right].
  - right; left. destruct (handleSubmit_resume_answer k d now st Hr) as (Hh & Hc & _).
    eexists. done.
Qed.

Lemma clearChat_currentSection st : currentSection (clearChat st) = currentSection st.
Proof. unfold clearChat. destruct (currentSection st) eqn:Hc; cbn; by rewrite Hc. Qed.

Lemma user_step_inv w w' : user_step w w' → world_inv w → world_inv w'.
Proof.
  intros Hstep Hinv. destruct Hstep as [v st ls|op [st ls] [st' ls'] Hoffer Hperf].
  - destruct Hinv as [H1 H2 H3]. by split.
  - destruct Hinv as [H1 H2 H3]. cbn [fst snd] in H1, H2, H3.
    destruct op as [t1 o t2| |s|]; cbn [perform] in Hperf.
    + destruct (handleSubmit_begin t1 st) as [[st1 [k|]]|] eqn:Hbeg; [| |done].
      * injection Hperf as <- <-.
        unfold handleSubmit_begin in Hbeg. destruct (blank (prompt st)); [done|].
        destruct (currentSection st) as [cur|] eqn:Hcur; [|done].
        injection Hbeg as <- <-. cbn [k_currentSection].
        destruct (H3 cur eq_refl) as [Hin _].
        set (st1 := setChatHistory _ _).
        set (k := {| k_currentSection := cur; k_userMessage := _; k_request := _ |}).
        assert (Hk1 : ∀ id, is_Some (chatHistory st1 !! id) → id ∈ map s_id sections).
        { intros id His. subst st1. cbn in His.
          apply append_to_keys in His as [->|His]; [by apply catalog_id_elem|by apply H2]. }
        assert (Hc1 : currentSection st1 = Some cur) by done.
        split; cbn [fst snd].
        -- apply commit_chatHistory.
        -- intros id.
           destruct (handleSubmit_resume_cases k o t2 st1)
             as [[-> _]|[(ms & -> & _)|(new & ms & Hnew & -> & _)]]; [apply Hk1| |].
           ++ intros His. apply append_to_keys in His as [->|His];
                [by apply catalog_id_elem|by apply Hk1].
           ++ intros His. apply append_to_keys in His as [->|His];
                [by apply catalog_id_elem|by apply Hk1].
        -- intros c Hc. split; [|by apply commit_currentSection].
           destruct (handleSubmit_resume_cases k o t2 st1)
             as [[_ [Hs|Hs]]|[(ms & _ & Hs)|(new & ms & Hnew & _ & Hs)]];
             rewrite Hs in Hc; [| done | |]; try (rewrite Hc1 in Hc);
             by injection Hc as <-.
      * injection Hperf as <- <-. apply handleSubmit_begin_returns in Hbeg as ->.
        by split.
    + injection Hperf as <- <-. split; cbn [fst snd].
      * apply commit_chatHistory.
      * intros id. unfold clearChat.
        destruct (currentSection st) as [cur|] eqn:Hcur; cbn; [|apply H2].
        destruct (decide (s_id cur = id)) as [<-|Hne].
        -- intros _. apply catalog_id_elem. by apply H3.
        -- rewrite lookup_insert_ne by done. apply H2.
      * intros c Hc. split; [|by apply commit_currentSection].
        apply H3. by rewrite clearChat_currentSection in Hc.
    + injection Hperf as <- <-. split; cbn [fst snd].
      * apply commit_chatHistory.
      * apply H2.
      * intros c Hc. split; [|by apply commit_currentSection].
        cbn in Hc. injection Hc as <-. by apply Hoffer.
    + injection Hperf as <- <-. split; cbn [fst snd].
      * apply commit_chatHistory.
      * apply H2.
      * by intros c [=].
Qed.

Lemma session_inv ls0 w : rtc user_step (mount ls0) w → world_inv w.
Proof.
  revert w. apply rtc_ind_r; [apply mount_inv|].
  intros w w' _ Hstep IH. by eapply user_step_inv.
Qed.

Lemma filterHistory_catalog_only (h : gmap str (list message)) :
  (∀ id, is_Some (h !! id) → id ∈ map s_id sections) → filterHistory h = h.
Proof.
  intros Hkeys. apply map_eq. intros id. rewrite filterHistory_lookup.
  case_bool_decide as Hin; [done|].
  destruct (h !! id) eqn:Hl; [|done]. exfalso. apply Hin, Hkeys. eauto.
Qed.

(** The commit of a render whose state has entries and an active
    section of the catalog only. *)
Lemma commit_world_inv st1 ls :
  (∀ id, is_Some (chatHistory st1 !! id) → id ∈ map s_id sections) →
  (∀ cur, currentSection st1 = Some cur → cur ∈ sections) →
  world_inv (st1, commit st1 ls).
Proof.
  intros Hk Hc. split; cbn [fst snd]; [apply commit_chatHistory|exact Hk|].
  intros cur Hcur. split; [by apply Hc|by apply commit_currentSection].
Qed.

Lemma session_step_inv w w' :
  session_step w w' →
  world_inv w.1 ∧ Forall (fun k => k_currentSection k ∈ sections) w.2 →
  world_inv w'.1 ∧ Forall (fun k => k_currentSection k ∈ sections) w'.2.
Proof.
  intros Hstep [Hinv Hks].
  destruct Hstep as [v st ls ks|op st st1 ls ks Hns Hoffer Hret
                    |t1 st st1 ls ls1 k ks Hfl|k o t2 st ls ks1 ks2];
    cbn [fst snd] in *; destruct Hinv as [H1 H2 H3]; cbn [fst snd] in H1, H2, H3.
  - split; [by split|done].
  - split; [|done]. destruct op as [t1 o t2| |s|]; cbn in Hret.
    + by destruct (Hns t1 o t2).
    + injection Hret as <-. apply commit_world_inv.
      * intros id. unfold clearChat.
        destruct (currentSection st) as [cur|] eqn:Hcur; cbn; [|apply H2].
        destruct (decide (s_id cur = id)) as [<-|Hne].
        -- intros _. apply catalog_id_elem. by apply H3.
        -- rewrite lookup_insert_ne by done. apply H2.
      * intros cur Hcur. rewrite clearChat_currentSection in Hcur. by apply H3.
    + injection Hret as <-. apply commit_world_inv; [apply H2|].
      intros cur [= <-]. by apply Hoffer.
    + injection Hret as <-. apply commit_world_inv; [apply H2|]. by intros cur [=].
  - unfold in_flight in Hfl.
    destruct (handleSubmit_begin t1 st) as [[st0 [k0|]]|] eqn:Hbeg; [|done..].
    injection Hfl as <- <- <-.
    unfold handleSubmit_begin in Hbeg. destruct (blank (prompt st)); [done|].
    destruct (currentSection st) as [cur|] eqn:Hcur; [|done].
    injection Hbeg as <- <-. destruct (H3 cur eq_refl) as [Hin _]. split.
    + apply commit_world_inv.
      * intros id His. cbn in His.
        apply append_to_keys in His as [->|His]; [by apply catalog_id_elem|by apply H2].
      * intros c Hc. cbn in Hc. rewrite Hcur in Hc. by injection Hc as <-.
    + by constructor.
  - apply Forall_app in Hks as [Hks1 Hks2]. apply Forall_cons in Hks2 as [Hk Hks2].
    split; [|by apply Forall_app]. unfold settled. cbn [fst snd].
    apply commit_world_inv.
    + intros id.
      destruct (handleSubmit_resume_cases k o t2 st)
        as [[-> _]|[(ms & -> & _)|(new & ms & Hnew & -> & _)]]; [apply H2| |];
        intros His; apply append_to_keys in His as [->|His];
        by (apply catalog_id_elem || apply H2).
    + intros c Hc.
      destruct (handleSubmit_resume_cases k o t2 st)
        as [[_ [Hs|Hs]]|[(ms & _ & Hs)|(new & ms & Hnew & _ & Hs)]];
        rewrite Hs in Hc; [by apply H3|done|by apply H3|by injection Hc as <-].
Qed.

Lemma session_points_inv ls0 w :
  rtc session_step (mount ls0, []) w →
  world_inv w.1 ∧ Forall (fun k => k_currentSection k ∈ sections) w.2.
Proof.
  revert w. apply rtc_ind_r; [split; [apply mount_inv|constructor]|].
  intros w w' _ Hstep IH. by eapply session_step_inv.
Qed.

(** The sessions made of whole operations are among the ones taken
    point by point: a submission that issues a request is the point
    where it leaves followed by the point where it settles. *)
Lemma user_step_session_steps w w' ks :
  user_step w w' → rtc session_step (w, ks) (w', ks).
Proof.
  intros [v st ls|op [st ls] [st' ls'] Hoffer Hperf].
  - apply rtc_once, ss_types.
  - destruct op as [t1 o t2| |s|].
    + destruct (in_flight t1 (st, ls)) as [[[st1 ls1] k]|] eqn:Hfl.
      * rewrite (perform_submit t1 o t2 _ _ _ _ Hfl) in Hperf.
        assert (Hp : settled k o t2 (st1, ls1) = (st', ls')) by congruence.
        eapply rtc_l; [exact (ss_leaves t1 _ _ _ _ _ ks Hfl)|].
        apply rtc_once.
        pose proof (ss_settles k o t2 st1 ls1 [] ks) as Hstep.
        rewrite Hp in Hstep. exact Hstep.
      * cbn [perform] in Hperf. unfold in_flight in Hfl.
        destruct (handleSubmit_begin t1 st) as [[st1 [k|]]|] eqn:Hbeg; [done| |done].
        injection Hperf as <- <-.
        apply handleSubmit_begin_returns in Hbeg as ->. done.
    + injection Hperf as <- <-. apply rtc_once. by apply (ss_does Clear).
    + injection Hperf as <- <-. apply rtc_once. by apply (ss_does (Select s)).
    + injection Hperf as <- <-. apply rtc_once. by apply (ss_does Back).
Qed.

(** At every point of a session (mount, then prompt edits, clears,
    section selections, returns to the picker, requests leaving and
    requests settling, in any order), the points where requests are in
    flight included, the stored item holds exactly the transcript
    mapping of the state, the mapping has entries for sections of the
    catalog only, and an active section is a section of the catalog
    whose id is the stored one. *)
Theorem session_storage_in_sync (ls0 ls : Storage) (st : AppState)
    (ks : list suspended) :
  rtc session_step (mount ls0, []) (st, ls, ks) →
  ls_chatHistory ls = Some (chatHistory st)
  ∧ (∀ id, is_Some (chatHistory st !! id) → id ∈ map s_id sections)
  ∧ (∀ cur, currentSection st = Some cur →
            cur ∈ sections ∧ ls_currentSection ls = Some (s_id cur)).
Proof.
  intros Hrun. destruct (session_points_inv ls0 _ Hrun) as [[H1 H2 H3] _]. done.
Qed.

(** Mounting again on the storage a session has left (a reload of the
    page) gives back every transcript as it was, emptied ones included,
    and the section that was active. *)
Theorem reload_restores_session (ls0 ls : Storage) (st : AppState) :
  rtc user_step (mount ls0) (st, ls) →
  chatHistory (mount ls).1 = chatHistory st
  ∧ (∀ id, chatHistory st !! id = Some [] → chatHistory (mount ls).1 !! id = Some [])
  ∧ (∀ cur, currentSection st = Some cur → currentSection (mount ls).1 = Some cur).
Proof.
  intros Hrun. destruct (session_inv ls0 (st, ls) Hrun) as [H1 H2 H3].
  cbn [fst snd] in H1, H2, H3.
  assert (Hh : chatHistory (mount ls).1 = chatHistory st).
  { unfold mount. cbn [fst]. rewrite loadEffect_chatHistory, H1.
    by apply filterHistory_catalog_only. }
  split; [exact Hh|]. split; [intros id; by rewrite Hh|].
  intros cur Hcur. destruct (H3 cur Hcur) as [Hin Hls].
  unfold mount. cbn [fst]. rewrite loadEffect_currentSection, Hls.
  by rewrite (catalog_id_truthy cur Hin), (find_section_catalog cur Hin).
Qed.

Lemma short_session_reachable :
  rtc user_step (mount {| ls_currentSection := None; ls_chatHistory := None |})
    short_session.
Proof.
  set (ls0 := {| ls_currentSection := None; ls_chatHistory := None |}).
  destruct (perform (Select movies) (mount ls0)) as [[st1 ls1]|] eqn:H1;
    [|vm_compute in H1; discriminate].
  destruct (perform (Submit (lit "t1") ResNotOk (lit "t2")) (setPrompt (lit "X") st1, ls1))
    as [w2|] eqn:H2; [|injection H1 as <- <-; vm_compute in H2; discriminate].
  destruct (perform Clear w2) as [[st3 ls3]|] eqn:H3; [|destruct w2; discriminate].
  destruct (perform Back (st3, ls3)) as [w4|] eqn:H4; [|discriminate].
  destruct (perform (Select music) w4) as [w5|] eqn:H5; [|destruct w4; discriminate].
  assert (Hs : short_session = w5).
  { unfold short_session. fold ls0. by rewrite H1, H2, H3, H4, H5. }
  rewrite Hs.
  eapply rtc_l; [eapply (user_performs (Select movies)); [|exact H1]|].
  { intros s [= <-]. apply list_elem_of_In. vm_compute. tauto. }
  eapply rtc_l; [apply (user_types (lit "X"))|].
  eapply rtc_l; [eapply (user_performs _ _ _ _ H2)|].
  eapply rtc_l; [eapply (user_performs _ _ _ _ H3)|].
  eapply rtc_l; [eapply (user_performs _ _ _ _ H4)|].
  eapply rtc_once, (user_performs (Select music)); [|exact H5].
  intros s [= <-]. apply list_elem_of_In. vm_compute. tauto.
  Unshelve. all: by intros s [=].
Qed.

Lemma first_in_flight_reachable :
  rtc session_step
    (mount {| ls_currentSection := None; ls_chatHistory := None |}, [])
    first_in_flight.
Proof.
  eapply rtc_l.
  { apply (ss_does (Select health)); [done| |reflexivity].
    intros s [= <-]. apply list_elem_of_In. vm_compute. tauto. }
  eapply rtc_l; [apply (ss_types (lit "first"))|].
  apply rtc_once. apply (ss_leaves (lit "t1")). reflexivity.
Qed.

Lemma session_storage_in_sync_witness :
  isLoading first_in_flight.1.1 = true
  ∧ ls_chatHistory first_in_flight.1.2 = Some (chatHistory first_in_flight.1.1)
  ∧ snapshot first_in_flight.1.1 (lit "health")
    = [ {| m_role := user; content := lit "first"; timestamp := lit "t1" |} ]
  ∧ ls_currentSection first_in_flight.1.2 = Some (lit "health").
Proof.
  split; [reflexivity|].
  destruct (session_storage_in_sync
              {| ls_currentSection := None; ls_chatHistory := None |}
              first_in_flight.1.2 first_in_flight.1.1 first_in_flight.2
              first_in_flight_reachable) as (Hs & _ & Hc).
  split; [exact Hs|]. split; [vm_compute; reflexivity|].
  destruct (Hc health eq_refl) as [_ Hm]. exact Hm.
Defined.

Lemma reload_restores_session_witness :
  chatHistory (mount short_session.2).1 !! lit "movies" = Some []
  ∧ currentSection (mount short_session.2).1 = Some music.
Proof.
  destruct (reload_restores_session
              {| ls_currentSection := None; ls_chatHistory := None |}
              short_session.2 short_session.1) as (_ & He & Hc).
  - rewrite <- surjective_pairing. exact short_session_reachable.
  - split; [apply He; reflexivity|apply Hc; reflexivity].
Defined.

(** At mount the stored section id selects a section exactly when it is
    the id of a section of the catalog; a stored id of no section is
    ignored, and left in the storage as it is. *)
Theorem mount_restores_section (ls : Storage) (s : section) :
  (currentSection (mount ls).1 = Some s
   ↔ s ∈ sections ∧ ls_currentSection ls = Some (s_id s))
  ∧ (currentSection (mount ls).1 = None →
     ls_currentSection (mount ls).2 = ls_currentSection ls).
Proof.
  unfold mount. cbn [fst snd]. rewrite loadEffect_currentSection. split.
  - split.
    + destruct (ls_currentSection ls) as [saved|]; [|done].
      destruct (Js.truthy saved); [|done].
      destruct (find_section (Some saved)) as [sec|] eqn:Hf; [|done].
      intros [= <-]. apply find_section_Some in Hf as [Hin [= ->]]. done.
    + intros [Hin ->].
      by rewrite (catalog_id_truthy s Hin), (find_section_catalog s Hin).
  - intros Hnone. unfold commit, saveChatEffect, saveSectionEffect. cbn.
    rewrite loadEffect_currentSection. by rewrite Hnone.
Qed.

Lemma mount_restores_section_witness :
  currentSection
    (mount {| ls_currentSection := Some (lit "banking"); ls_chatHistory := None |}).1
  = Some banking
  ∧ ls_currentSection (mount stale_storage).2 = Some (lit "sports").
Proof.
  split.
  - apply (proj1 (mount_restores_section
                    {| ls_currentSection := Some (lit "banking"); ls_chatHistory := None |}
                    banking)).
    split; [apply list_elem_of_In; vm_compute; tauto|reflexivity].
  - apply (proj2 (mount_restores_section stale_storage health)). reflexivity.
Defined.

(** * The reveal, tick by tick *)

(** What every mounted [TypingAnimation] satisfies: it shows the first
    [currentIndex] code units of its text, and its pending timer, when
    it has one, carries that text and index. *)
Record reveal_inv (ui : UI) : Prop := {
  ri_typing : ∀ ty, typing ui = Some ty →
    displayedText ty = take (currentIndex ty) (text ty)
    ∧ (currentIndex ty ≤ length (text ty))%nat
    ∧ match cleanup ty with
      | Some t =>
          armed (timers ui) !! t
          = Some {| tick_text := text ty; tick_currentIndex := currentIndex ty |}
          ∧ (currentIndex ty < length (text ty))%nat
      | None => currentIndex ty = length (text ty)
      end
}.

Lemma typingEffect_reveal txt dsp idx tm :
  dsp = take idx txt → (idx ≤ length txt)%nat →
  let ty := (typingEffect txt dsp idx tm).1 in
  text ty = txt ∧ currentIndex ty = idx
  ∧ displayedText ty = take (currentIndex ty) (text ty)
  ∧ (currentIndex ty ≤ length (text ty))%nat
  ∧ match cleanup ty with
    | Some t =>
        armed (typingEffect txt dsp idx tm).2 !! t
        = Some {| tick_text := text ty; tick_currentIndex := currentIndex ty |}
        ∧ (currentIndex ty < length (text ty))%nat
    | None => currentIndex ty = length (text ty)
    end.
Proof.
  intros Hd Hle. unfold typingEffect, setTimeout. case_bool_decide; cbn.
  - repeat split; try done. apply lookup_insert_eq.
  - repeat split; try done. lia.
Qed.

Lemma rerender_reveal_inv st' ui : reveal_inv (rerender st' ui).
Proof.
  unfold rerender.
  set (tm1 := match typing ui with
              | Some ty => runCleanup ty (timers ui)
              | None => timers ui
              end).
  destruct (typed_message st') as [msg|]; [|by split].
  pose proof (typingEffect_reveal (content msg) [] 0 tm1 eq_refl (Nat.le_0_l _)) as Hr.
  destruct (typingEffect (content msg) [] 0 tm1) as [ty tm2].
  cbn [fst snd] in Hr. destruct Hr as (_ & _ & H1 & H2 & H3).
  split. intros ty0 [= <-]. done.
Qed.

Lemma char_at_take (txt : str) (i : nat) :
  (i < length txt)%nat → take i txt ++ char_at txt i = take (S i) txt.
Proof.
  intros Hlt. unfold char_at.
  destruct (txt !! i) as [c|] eqn:Hc.
  - symmetry. by apply take_S_r.
  - apply lookup_ge_None in Hc. lia.
Qed.

(** One tick of an unfinished reveal. *)
Lemma fire_progress ui ty t :
  ui_inv ui → reveal_inv ui → typing ui = Some ty → cleanup ty = Some t →
  ∃ ty', typing (fire t ui) = Some ty'
         ∧ text ty' = text ty
         ∧ currentIndex ty' = S (currentIndex ty)
         ∧ displayedText ty' = take (S (currentIndex ty)) (text ty)
         ∧ (S (currentIndex ty) ≤ length (text ty))%nat
         ∧ match cleanup ty' with
           | Some t' =>
               armed (timers (fire t ui)) !! t'
               = Some {| tick_text := text ty'; tick_currentIndex := currentIndex ty' |}
               ∧ (currentIndex ty' < length (text ty'))%nat
           | None => currentIndex ty' = length (text ty')
           end.
Proof.
  intros Hinv [Hrev] Hty Hc. destruct (Hrev ty Hty) as (Hd & Hle & Hcl).
  rewrite Hc in Hcl. destruct Hcl as [Harmed Hlt].
  unfold fire. rewrite Harmed, Hty, (bool_decide_eq_true_2 _ Hc).
  cbn [tick_text tick_currentIndex].
  set (tm := runCleanup ty _).
  assert (Hd' : displayedText ty ++ char_at (text ty) (currentIndex ty)
                = take (S (currentIndex ty)) (text ty)).
  { rewrite Hd. by apply char_at_take. }
  pose proof (typingEffect_reveal (text ty)
                (displayedText ty ++ char_at (text ty) (currentIndex ty))
                (S (currentIndex ty)) tm Hd' Hlt) as Hr.
  destruct (typingEffect (text ty) _ (S (currentIndex ty)) tm) as [ty' tm2].
  cbn [fst snd] in Hr. destruct Hr as (Ht & Hi & Hd2 & Hle2 & Hcl2).
  exists ty'. cbn [typing timers]. rewrite Hi, Ht in Hd2.
  split; [done|]. split; [done|]. split; [done|]. split; [done|].
  split; [lia|done].
Qed.

Lemma fire_reveal_inv timer ui : ui_inv ui → reveal_inv ui → reveal_inv (fire timer ui).
Proof.
  intros Hinv Hrev.
  destruct (armed (timers ui) !! timer) as [cb|] eqn:Harmed;
    [|unfold fire; by rewrite Harmed].
  assert (His : is_Some (armed (timers ui) !! timer)) by eauto.
  apply (inv_armed ui Hinv) in His as (ty & Hty & Hc).
  destruct (fire_progress ui ty timer Hinv Hrev Hty Hc)
    as (ty' & Hty' & Ht & Hi & Hd & Hle & Hcl).
  split. intros ty0 Hty0. rewrite Hty' in Hty0. injection Hty0 as <-.
  rewrite Ht, Hi. rewrite Ht, Hi in Hcl. done.
Qed.

Lemma reachable_reveal_inv ui : rtc ui_step initialUI ui → ui_inv ui ∧ reveal_inv ui.
Proof.
  revert ui. apply rtc_ind_r.
  - split; [apply initialUI_inv|]. by split.
  - intros mid ui _ Hstep [IH1 IH2]. destruct Hstep.
    + split; [by apply rerender_inv|apply rerender_reveal_inv].
    + split; [by apply fire_inv|by apply fire_reveal_inv].
Qed.

Lemma elapse_fire ui ty t :
  typing ui = Some ty → cleanup ty = Some t → elapse ui = fire t ui.
Proof. intros Hty Hc. unfold elapse. by rewrite Hty, Hc. Qed.

Lemma elapse_done ui ty :
  typing ui = Some ty → cleanup ty = None → elapse ui = ui.
Proof. intros Hty Hc. unfold elapse. by rewrite Hty, Hc. Qed.

Lemma elapse_steps ui : rtc ui_step ui (elapse ui).
Proof.
  unfold elapse. destruct (typing ui) as [ty|]; [|done].
  destruct (cleanup ty); [|done]. apply rtc_once, step_fire.
Qed.

Lemma iter_elapse_steps k ui : rtc ui_step ui (Nat.iter k elapse ui).
Proof.
  induction k as [|k IH]; [done|].
  change (Nat.iter (S k) elapse ui) with (elapse (Nat.iter k elapse ui)).
  etrans; [exact IH|apply elapse_steps].
Qed.

(** What a reveal shows is always a prefix of the message it reveals:
    the first [currentIndex] code units of the content of the last
    message of the shown transcript, never the text of [undefined]; and
    when no timer is pending it shows the whole content. *)
Theorem reveal_shows_prefix (ui : UI) (ty : Typing) :
  rtc ui_step initialUI ui →
  typing ui = Some ty →
  ∃ msg,
    typed_message (app ui) = Some msg
    ∧ text ty = content msg
    ∧ displayedText ty = take (currentIndex ty) (content msg)
    ∧ (currentIndex ty ≤ length (content msg))%nat
    ∧ (cleanup ty = None → displayedText ty = content msg).
Proof.
  intros Hreach Hty. destruct (reachable_reveal_inv ui Hreach) as [Hinv [Hrev]].
  destruct (inv_text ui Hinv ty Hty) as (msg & Hmsg & Htxt).
  destruct (Hrev ty Hty) as (Hd & Hle & Hcl). rewrite Htxt in Hd, Hle, Hcl.
  exists msg. split; [done|]. split; [done|]. split; [done|]. split; [done|].
  intros Hnone. rewrite Hnone in Hcl. rewrite Hd, Hcl. apply firstn_all.
Qed.

Lemma reveal_shows_prefix_witness :
  ∃ msg,
    typed_message (app revealing) = Some msg
    ∧ content msg = lit "first"
    ∧ displayedText <$> typing revealing = Some (take 1 (content msg)).
Proof.
  destruct (reveal_shows_prefix revealing
              {| text := lit "first"; displayedText := lit "f"; currentIndex := 1;
                 cleanup := Some 2%nat |}) as (msg & Hm & Ht & Hd & _).
  - exact (rtc_r _ _ _
             (rtc_r _ _ _ (rtc_once _ _ (step_render first_pending initialUI))
                (step_render second_question _))
             (step_fire 1 _)).
  - reflexivity.
  - exists msg. split; [exact Hm|]. split; [by rewrite <- Ht|].
    cbn [displayedText currentIndex] in Hd. rewrite <- Hd. reflexivity.
Defined.

(** A reveal left alone runs to its end: after [k] more ticks it shows
    [k] more code units, and once the remaining ones have ticked it
    shows the whole text, no timer is left in the table, and further
    ticks change nothing.  The state of [App] is the same all along. *)
Theorem reveal_completes (ui : UI) (ty : Typing) (k : nat) :
  rtc ui_step initialUI ui →
  typing ui = Some ty →
  (k ≤ length (text ty) - currentIndex ty)%nat →
  ∃ ty',
    typing (Nat.iter k elapse ui) = Some ty'
    ∧ text ty' = text ty
    ∧ currentIndex ty' = (currentIndex ty + k)%nat
    ∧ displayedText ty' = take (currentIndex ty + k) (text ty)
    ∧ app (Nat.iter k elapse ui) = app ui
    ∧ (k = (length (text ty) - currentIndex ty)%nat →
       displayedText ty' = text ty
       ∧ (∀ t, armed (timers (Nat.iter k elapse ui)) !! t = None)
       ∧ elapse (Nat.iter k elapse ui) = Nat.iter k elapse ui).
Proof.
  intros Hreach Hty.
  destruct (reachable_reveal_inv ui Hreach) as [_ [Hrev0]].
  destruct (Hrev0 ty Hty) as (_ & Hle0 & _).
  assert (Hmain : ∀ k, (k ≤ length (text ty) - currentIndex ty)%nat →
            ∃ ty', typing (Nat.iter k elapse ui) = Some ty'
                   ∧ text ty' = text ty
                   ∧ currentIndex ty' = (currentIndex ty + k)%nat
                   ∧ app (Nat.iter k elapse ui) = app ui).
  { clear k. induction k as [|k IH]; intros Hk;
      [|change (Nat.iter (S k) elapse ui) with (elapse (Nat.iter k elapse ui))].
    - exists ty. repeat split; [done|lia].
    - destruct IH as (tyk & Htyk & Htk & Hik & Hak); [lia|].
      assert (Hrk : rtc ui_step initialUI (Nat.iter k elapse ui)).
      { etrans; [exact Hreach|apply iter_elapse_steps]. }
      destruct (reachable_reveal_inv _ Hrk) as [Hinvk Hrevk].
      destruct Hrevk as [Hrevk']. destruct (Hrevk' tyk Htyk) as (_ & _ & Hcl).
      destruct (cleanup tyk) as [t|] eqn:Hc; [|rewrite Htk, Hik in Hcl; lia].
      rewrite (elapse_fire _ tyk t Htyk Hc).
      destruct (fire_progress _ tyk t Hinvk (Build_reveal_inv _ Hrevk') Htyk Hc)
        as (ty' & Hty' & Ht' & Hi' & _).
      exists ty'. split; [done|]. split; [congruence|]. split; [lia|].
      by rewrite fire_app. }
  intros Hk. destruct (Hmain k Hk) as (ty' & Hty' & Ht' & Hi' & Ha').
  assert (Hrk : rtc ui_step initialUI (Nat.iter k elapse ui)).
  { etrans; [exact Hreach|apply iter_elapse_steps]. }
  destruct (reachable_reveal_inv _ Hrk) as [Hinvk [Hrevk]].
  destruct (Hrevk ty' Hty') as (Hd & _ & Hcl).
  exists ty'. split; [done|]. split; [done|]. split; [done|].
  split; [by rewrite Hd, Ht', Hi'|]. split; [done|].
  intros ->. rewrite Hd, Ht', Hi'.
  replace (currentIndex ty + (length (text ty) - currentIndex ty))%nat
    with (length (text ty)) by lia.
  split; [apply firstn_all|].
  assert (Hnone : cleanup ty' = None).
  { destruct (cleanup ty'); [|done]. rewrite Ht', Hi' in Hcl. lia. }
  split.
  - intros t. destruct (armed (timers _) !! t) eqn:Hl; [|done]. exfalso.
    assert (His : is_Some (armed (timers (Nat.iter (length (text ty) - currentIndex ty)
                                            elapse ui)) !! t)) by eauto.
    apply (inv_armed _ Hinvk) in His as (ty2 & Hty2 & Hc2). congruence.
  - by apply (elapse_done _ ty').
Qed.

Lemma reveal_completes_witness :
  displayedText <$> typing (Nat.iter 4 elapse revealing) = Some (lit "first")
  ∧ ∀ t, armed (timers (Nat.iter 4 elapse revealing)) !! t = None.
Proof.
  destruct (reveal_completes revealing
              {| text := lit "first"; displayedText := lit "f"; currentIndex := 1;
                 cleanup := Some 2%nat |} 4) as (ty' & Hty' & _ & _ & _ & _ & Hend).
  - exact (rtc_r _ _ _
             (rtc_r _ _ _ (rtc_once _ _ (step_render first_pending initialUI))
                (step_render second_question _))
             (step_fire 1 _)).
  - reflexivity.
  - vm_compute. lia.
  - destruct Hend as (Hd & Hnone & _); [reflexivity|].
    split; [|exact Hnone]. rewrite Hty'. exact (f_equal Some Hd).
Defined.

(** At most one timer is pending at any time, the one of the mounted
    [TypingAnimation]; none is pending while the view has nothing to
    reveal (no section, [isTyping] false, or an empty transcript). *)
Theorem one_pending_timer (ui : UI) :
  rtc ui_step initialUI ui →
  (∀ t1 t2, is_Some (armed (timers ui) !! t1) → is_Some (armed (timers ui) !! t2) →
            t1 = t2)
  ∧ (typed_message (app ui) = None → ∀ t, armed (timers ui) !! t = None).
Proof.
  intros Hreach. pose proof (reachable_inv ui Hreach) as Hinv. split.
  - intros t1 t2 H1 H2.
    apply (inv_armed ui Hinv) in H1 as (ty1 & Hty1 & Hc1).
    apply (inv_armed ui Hinv) in H2 as (ty2 & Hty2 & Hc2). congruence.
  - intros Hnone. apply no_typing_empty; [done|].
    destruct (typing ui) as [ty|] eqn:Hty; [|done].
    destruct (inv_text ui Hinv ty Hty) as (msg & Hm & _). congruence.
Qed.

Lemma one_pending_timer_witness :
  typed_message (handleSubmit_resume first_request ResNotOk (lit "t2") first_pending)
  = None
  ∧ ∀ t, armed (timers (rerender (handleSubmit_resume first_request ResNotOk (lit "t2")
                                    first_pending) revealing)) !! t = None.
Proof.
  split; [reflexivity|].
  destruct (one_pending_timer
              (rerender (handleSubmit_resume first_request ResNotOk (lit "t2")
                           first_pending) revealing)) as [_ Hnone].
  - exact (rtc_r _ _ _
             (rtc_r _ _ _
                (rtc_r _ _ _ (rtc_once _ _ (step_render first_pending initialUI))
                   (step_render second_question _))
                (step_fire 1 _))
             (step_render _ _)).
  - apply Hnone. reflexivity.
Defined.

(** * The paginated export *)

(** A text inside the printable area of its page. *)
Definition in_bounds (d : drawn) : Prop :=
  d_x d = 20%Z ∧ (20 ≤ d_y d ≤ 270)%Z.

(** What the loops of [exportAsPDF] keep true of the document and of
    the vertical offset [y]. *)
Definition pdf_ok (doc : Pdf) (y : Z) : Prop :=
  (20 ≤ y)%Z
  ∧ Forall (Forall in_bounds) (pdf_all_pages doc)
  ∧ Forall (fun p => p ≠ []) (pdf_all_pages doc).

Section ExportPaginatedProperties.

Variable toLocaleString : str → str.
Variable splitTextToSize : str → Z → list str.

Lemma pdf_texts_addPage doc : pdf_texts (pdf_addPage doc) = pdf_texts doc.
Proof.
  unfold pdf_texts, pdf_all_pages, pdf_addPage. cbn.
  by rewrite !concat_app, app_nil_r.
Qed.

Lemma pdf_texts_text t x y doc :
  pdf_texts (pdf_text t x y doc) = pdf_texts doc ++ [(t, pdf_fontSize doc)].
Proof.
  unfold pdf_texts, pdf_all_pages, pdf_text. cbn.
  rewrite !concat_app. cbn. rewrite !app_nil_r, app_assoc, map_app. done.
Qed.

(** The page break followed by a text: the text lands inside the
    printable area, on a page that is not left empty. *)
Lemma break_then_text doc y doc1 y1 :
  pdf_ok doc y → breakPage (doc, y) = (doc1, y1) →
  pdf_texts doc1 = pdf_texts doc
  ∧ pdf_fontSize doc1 = pdf_fontSize doc
  ∧ ∀ t n dy, (0 ≤ dy)%Z →
      pdf_ok (pdf_text t 20 y1 (pdf_setFontSize n doc1)) (y1 + dy).
Proof.
  intros (Hy & Hb & Hn) Hbreak. unfold breakPage in Hbreak.
  unfold pdf_all_pages in Hb, Hn.
  apply Forall_app in Hb as [Hb1 Hb2]. apply Forall_app in Hn as [Hn1 Hn2].
  destruct (270 <? y)%Z eqn:Hlt; injection Hbreak as <- <-.
  - split; [apply pdf_texts_addPage|]. split; [done|].
    intros t n dy Hdy. unfold pdf_ok, pdf_all_pages. cbn.
    split; [lia|]. split.
    + repeat (apply Forall_app; split); try done.
      repeat constructor; cbn; lia.
    + repeat (apply Forall_app; split); try done. by repeat constructor.
  - apply Z.ltb_ge in Hlt. split; [done|]. split; [done|].
    intros t n dy Hdy. unfold pdf_ok, pdf_all_pages. cbn.
    split; [lia|]. split.
    + apply Forall_app; split; [done|]. constructor; [|done].
      apply Forall_app; split; [by inversion Hb2|].
      repeat constructor; cbn; lia.
    + apply Forall_app; split; [done|]. constructor; [|done].
      by destruct (pdf_page doc).
Qed.

Lemma pdf_text_setFontSize_same t x y doc :
  pdf_text t x y (pdf_setFontSize (pdf_fontSize doc) doc) = pdf_text t x y doc.
Proof. reflexivity. Qed.

Lemma pdf_line_ok doc y line doc' y' :
  pdf_ok doc y → pdf_line (doc, y) line = (doc', y') →
  pdf_ok doc' y'
  ∧ pdf_fontSize doc' = pdf_fontSize doc
  ∧ pdf_texts doc' = pdf_texts doc ++ [(line, pdf_fontSize doc)].
Proof.
  intros Hok Hline. unfold pdf_line in Hline.
  destruct (breakPage (doc, y)) as [doc1 y1] eqn:Hbreak.
  destruct (break_then_text doc y doc1 y1 Hok Hbreak) as (Ht & Hf & Hdraw).
  injection Hline as <- <-. split; [|split].
  - rewrite <- (pdf_text_setFontSize_same line 20 y1 doc1). by apply Hdraw.
  - done.
  - by rewrite pdf_texts_text, Ht, Hf.
Qed.

Lemma pdf_lines_ok lines doc y doc' y' :
  pdf_ok doc y → fold_left pdf_line lines (doc, y) = (doc', y') →
  pdf_ok doc' y'
  ∧ pdf_fontSize doc' = pdf_fontSize doc
  ∧ pdf_texts doc'
    = pdf_texts doc ++ map (fun line => (line, pdf_fontSize doc)) lines.
Proof.
  revert doc y. induction lines as [|line lines IH]; intros doc y Hok Hfold;
    cbn [fold_left map] in *.
  - injection Hfold as <- <-. by rewrite app_nil_r.
  - destruct (pdf_line (doc, y) line) as [doc1 y1] eqn:Hline.
    destruct (pdf_line_ok doc y line doc1 y1 Hok Hline) as (Hok1 & Hf1 & Ht1).
    destruct (IH doc1 y1 Hok1 Hfold) as (Hok' & Hf' & Ht').
    split; [done|]. split; [congruence|].
    rewrite Ht', Ht1, Hf1, <- app_assoc. done.
Qed.

Lemma pdf_ok_shift doc y dy : pdf_ok doc y → (0 ≤ dy)%Z → pdf_ok doc (y + dy).
Proof. intros (Hy & Hb & Hn) Hdy. split; [lia|done]. Qed.

Lemma pdf_message_ok doc y msg doc' y' :
  pdf_ok doc y →
  pdf_message toLocaleString splitTextToSize (doc, y) msg = (doc', y') →
  pdf_ok doc' y'
  ∧ pdf_texts doc'
    = pdf_texts doc ++ pdf_message_texts toLocaleString splitTextToSize msg.
Proof.
  intros Hok Hmsg. unfold pdf_message in Hmsg.
  destruct (breakPage (doc, y)) as [doc1 y1] eqn:Hbreak.
  destruct (break_then_text doc y doc1 y1 Hok Hbreak) as (Ht & Hf & Hdraw).
  set (doc2 := pdf_text (pdf_header toLocaleString msg) 20 y1 (pdf_setFontSize 10 doc1))
    in Hmsg.
  destruct (fold_left pdf_line (splitTextToSize (content msg) 170)
              (pdf_setFontSize 12 doc2, (y1 + 10)%Z)) as [doc3 y3] eqn:Hfold.
  injection Hmsg as <- <-.
  assert (Hok2 : pdf_ok (pdf_setFontSize 12 doc2) (y1 + 10)).
  { apply (Hdraw (pdf_header toLocaleString msg) 10%Z 10%Z). lia. }
  destruct (pdf_lines_ok _ _ _ _ _ Hok2 Hfold) as (Hok3 & _ & Ht3).
  split; [apply pdf_ok_shift; [done|lia]|].
  rewrite Ht3. unfold pdf_message_texts. cbn [pdf_fontSize pdf_setFontSize].
  change (pdf_texts (pdf_setFontSize 12 doc2)) with (pdf_texts doc2).
  subst doc2. rewrite pdf_texts_text. cbn [pdf_fontSize pdf_setFontSize].
  change (pdf_texts (pdf_setFontSize 10 doc1)) with (pdf_texts doc1).
  rewrite Ht, <- app_assoc. done.
Qed.

Lemma pdf_messages_ok msgs doc y doc' y' :
  pdf_ok doc y →
  fold_left (pdf_message toLocaleString splitTextToSize) msgs (doc, y) = (doc', y') →
  pdf_ok doc' y'
  ∧ pdf_texts doc'
    = pdf_texts doc
      ++ flat_map (pdf_message_texts toLocaleString splitTextToSize) msgs.
Proof.
  revert doc y. induction msgs as [|msg msgs IH]; intros doc y Hok Hfold;
    cbn [fold_left flat_map] in *.
  - injection Hfold as <- <-. by rewrite app_nil_r.
  - destruct (pdf_message toLocaleString splitTextToSize (doc, y) msg)
      as [doc1 y1] eqn:Hmsg.
    destruct (pdf_message_ok doc y msg doc1 y1 Hok Hmsg) as (Hok1 & Ht1).
    destruct (IH doc1 y1 Hok1 Hfold) as (Hok' & Ht').
    split; [done|]. by rewrite Ht', Ht1, <- app_assoc.
Qed.

Lemma exportAsPDF_Some st cur :
  currentSection st = Some cur →
  ∃ doc y,
    fold_left (pdf_message toLocaleString splitTextToSize) (snapshot st (s_id cur))
      (pdf_text (s_name cur ++ lit " Chat History") 20 20 (pdf_setFontSize 16 newPdf),
       40%Z) = (doc, y)
    ∧ exportAsPDF toLocaleString splitTextToSize st
      = (setToast (Some (lit "Exported as PDF")) st,
         Some (Js.toLowerCase (s_name cur) ++ lit "-chat-history.pdf", doc))
    ∧ pdf_ok doc y
    ∧ pdf_texts doc
      = (s_name cur ++ lit " Chat History", 16%Z)
        :: flat_map (pdf_message_texts toLocaleString splitTextToSize)
             (snapshot st (s_id cur)).
Proof.
  intros Hcur. unfold exportAsPDF, snapshot. rewrite Hcur.
  change (20 + 20)%Z with 40%Z.
  destruct (fold_left _ (entry_or_empty (chatHistory st) (s_id cur)) _)
    as [doc y] eqn:Hfold.
  exists doc, y. split; [done|]. split; [done|].
  assert (Hok0 : pdf_ok (pdf_text (s_name cur ++ lit " Chat History") 20 20
                           (pdf_setFontSize 16 newPdf)) 40).
  { unfold pdf_ok, pdf_all_pages. cbn. split; [lia|].
    split; repeat constructor; cbn; try lia. done. }
  destruct (pdf_messages_ok _ _ _ _ _ Hok0 Hfold) as (Hok & Ht).
  split; [done|]. rewrite Ht. reflexivity.
Qed.

(** The PDF holds, in drawing order over its pages, the title at size
    16 and then, for each message in transcript order, its header
    [[timestamp] label:] at size 10 followed by the lines jsPDF split its
    content into at size 12: nothing is dropped at a page break, and the
    transcripts are left as they are. *)
Theorem pdf_holds_whole_transcript (st : AppState) (cur : section) :
  currentSection st = Some cur →
  ∃ doc,
    (exportAsPDF toLocaleString splitTextToSize st).2
    = Some (Js.toLowerCase (s_name cur) ++ lit "-chat-history.pdf", doc)
    ∧ pdf_texts doc
      = (s_name cur ++ lit " Chat History", 16%Z)
        :: flat_map
             (fun msg =>
                (pdf_header toLocaleString msg, 10%Z)
                :: map (fun line => (line, 12%Z)) (splitTextToSize (content msg) 170))
             (snapshot st (s_id cur))
    ∧ chatHistory (exportAsPDF toLocaleString splitTextToSize st).1 = chatHistory st.
Proof.
  intros Hcur. destruct (exportAsPDF_Some st cur Hcur) as (doc & y & _ & -> & _ & Ht).
  exists doc. split; [done|]. split; [exact Ht|done].
Qed.

(** Every text of the PDF is drawn at [x = 20] with [20 ≤ y ≤ 270], and
    no page of the document is empty, whatever the lengths of the
    messages. *)
Theorem pdf_layout_in_bounds (st : AppState) (cur : section) :
  currentSection st = Some cur →
  ∃ name doc,
    (exportAsPDF toLocaleString splitTextToSize st).2 = Some (name, doc)
    ∧ (∀ page d, page ∈ pdf_all_pages doc → d ∈ page →
                 d_x d = 20%Z ∧ (20 ≤ d_y d ≤ 270)%Z)
    ∧ (∀ page, page ∈ pdf_all_pages doc → page ≠ []).
Proof.
  intros Hcur.
  destruct (exportAsPDF_Some st cur Hcur) as (doc & y & _ & -> & (_ & Hb & Hn) & _).
  eexists _, doc. split; [done|]. split.
  - intros page d Hp Hd. rewrite Forall_forall in Hb.
    specialize (Hb page Hp). rewrite Forall_forall in Hb. by apply Hb.
  - intros page Hp. rewrite Forall_forall in Hn. by apply Hn.
Qed.

End ExportPaginatedProperties.

Lemma pdf_holds_whole_transcript_witness :
  ∃ doc,
    (exportAsPDF (fun ts => ts) (fun t _ => [t; t]) long_transcript).2
    = Some (lit "health-chat-history.pdf", doc)
    ∧ length (pdf_texts doc) = 61%nat.
Proof.
  destruct (pdf_holds_whole_transcript (fun ts => ts) (fun t _ => [t; t])
              long_transcript health eq_refl) as (doc & Hdoc & Ht & _).
  exists doc. split; [exact Hdoc|]. rewrite Ht. vm_compute. reflexivity.
Defined.

Lemma pdf_layout_in_bounds_witness :
  ∃ name doc,
    (exportAsPDF (fun ts => ts) (fun t _ => [t; t]) long_transcript).2 = Some (name, doc)
    ∧ (∀ page d, page ∈ pdf_all_pages doc → d ∈ page →
                 d_x d = 20%Z ∧ (20 ≤ d_y d ≤ 270)%Z)
    ∧ (∀ page, page ∈ pdf_all_pages doc → page ≠ []).
Proof.
  apply (pdf_layout_in_bounds (fun ts => ts) (fun t _ => [t; t]) long_transcript health).
  reflexivity.
Defined.

(** The twenty messages of the example take three pages. *)
Example long_transcript_pages :
  (fun r => length (pdf_all_pages r.2))
    <$> (exportAsPDF (fun ts => ts) (fun t _ => [t; t]) long_transcript).2
  = Some 3%nat.
Proof. vm_compute. reflexivity. Qed.

(** * The text export of a growing transcript *)

Lemma blocks_document_prefix (toLocaleString : str → str) (t more : list message) :
  blocks_document toLocaleString t `prefix_of` blocks_document toLocaleString (t ++ more).
Proof.
  destruct t as [|msg rest]; [apply prefix_nil|].
  rewrite <- app_comm_cons, !blocks_document_cons, map_app, flat_map_app, app_assoc.
  by apply prefix_app_r.
Qed.

(** When the shown transcript has only grown between two exports, the
    text of the earlier export is a prefix of the text of the later
    one. *)
Theorem export_text_extends (toLocaleString : str → str) (st st2 : AppState)
    (cur cur2 : section) :
  currentSection st = Some cur →
  currentSection st2 = Some cur2 →
  snapshot st (s_id cur) `prefix_of` snapshot st2 (s_id cur2) →
  ∃ file file2,
    (exportAsTXT toLocaleString st).2 = Some file
    ∧ (exportAsTXT toLocaleString st2).2 = Some file2
    ∧ file_content file `prefix_of` file_content file2.
Proof.
  intros Hcur Hcur2 [more Hmore]. unfold exportAsTXT. rewrite Hcur, Hcur2.
  eexists _, _. split; [done|]. split; [done|]. cbn [file_content].
  rewrite !join_blocks_document. fold (snapshot st (s_id cur)).
  fold (snapshot st2 (s_id cur2)). rewrite Hmore. apply blocks_document_prefix.
Qed.

Lemma export_text_extends_witness :
  ∃ file file2,
    (exportAsTXT (fun ts => ts) first_pending).2 = Some file
    ∧ (exportAsTXT (fun ts => ts) second_pending).2 = Some file2
    ∧ file_content file `prefix_of` file_content file2.
Proof.
  apply (export_text_extends (fun ts => ts) first_pending second_pending health health);
    [reflexivity | reflexivity |].
  exists [ {| m_role := user; content := lit "second"; timestamp := lit "t2" |} ].
  vm_compute. reflexivity.
Defined.

(** * The earlier variant *)

(** In the earlier variant a request that fails after one that
    succeeded leaves the earlier answer in the result box, next to the
    error box: the error path does not touch the result.  The prompt is
    kept for a retry and the loading flag is released. *)
Theorem single_failure_keeps_answer (st : Single.State) (q1 q2 : str)
    (d : Single.answer) (o : Single.outcome) :
  blank q1 = false →
  blank q2 = false →
  (∀ d', o ≠ Single.Json d') →
  let st1 := (Single.handleSubmit (Single.Json d) (Single.setPrompt q1 st)).1 in
  let st2 := (Single.handleSubmit o (Single.setPrompt q2 st1)).1 in
  Single.shown st1 = (None, Some d)
  ∧ Single.shown st2 = (Some connection_error, Some d)
  ∧ Single.prompt st2 = q2
  ∧ Single.isLoading st2 = false
  ∧ (Single.handleSubmit o (Single.setPrompt q2 st1)).2 = Some q2.
Proof.
  intros H1 H2 Ho. unfold Single.handleSubmit. cbn [Single.prompt Single.setPrompt].
  rewrite H1. cbn [fst Single.prompt Single.setPrompt]. rewrite H2.
  destruct o as [ | | |d']; [| | |by destruct (Ho d')]; done.
Qed.

Lemma single_failure_keeps_answer_witness :
  Single.shown
    (Single.handleSubmit Single.ResNotOk
       (Single.setPrompt (lit "b")
          (Single.handleSubmit
             (Single.Json {| Single.category := lit "general";
                             Single.a_response := lit "hi" |})
             (Single.setPrompt (lit "a") Single.initialState)).1)).1
  = (Some connection_error,
     Some {| Single.category := lit "general"; Single.a_response := lit "hi" |}).
Proof.
  apply (single_failure_keeps_answer Single.initialState (lit "a") (lit "b")
           {| Single.category := lit "general"; Single.a_response := lit "hi" |}
           Single.ResNotOk); [reflexivity | reflexivity | discriminate].
Defined.


(** * Replies outside the documented shape *)

Lemma embed_entry (h : gmap str (list message)) (id : str) :
  Raw.entry_or_empty (embed_history h) id = map embed_message (entry_or_empty h id).
Proof.
  unfold Raw.entry_or_empty, entry_or_empty, embed_history.
  rewrite lookup_fmap. by destruct (h !! id).
Qed.

Lemma embed_append_to (id : str) (ms : list message) (h : gmap str (list message)) :
  embed_history (append_to id ms h)
  = Raw.append_to id (map embed_message ms) (embed_history h).
Proof.
  unfold Raw.append_to, append_to. rewrite embed_entry, <- map_app.
  unfold embed_history. by rewrite fmap_insert.
Qed.

Lemma embed_begin (now : str) (st : AppState) :
  Raw.handleSubmit_begin now (embed_state st)
  = option_map
      (fun r : AppState * option suspended =>
         (embed_state r.1, option_map embed_suspended r.2))
      (handleSubmit_begin now st).
Proof.
  unfold Raw.handleSubmit_begin, handleSubmit_begin.
  change (Raw.prompt (embed_state st)) with (prompt st).
  change (Raw.currentSection (embed_state st)) with (currentSection st).
  destruct (blank (prompt st)); [reflexivity|].
  destruct (currentSection st) as [cur|]; [|reflexivity].
  cbn [option_map fst snd]. f_equal. f_equal.
  unfold embed_state. cbn. rewrite embed_append_to. reflexivity.
Qed.

Lemma embed_resume (k : suspended) (o : fetch_outcome) (now : str) (st : AppState) :
  Raw.handleSubmit_resume (embed_suspended k) (embed_outcome o) now (embed_state st)
  = embed_state (handleSubmit_resume k o now st).
Proof.
  unfold Raw.handleSubmit_resume, handleSubmit_resume,
    Raw.handleSubmit_try, handleSubmit_try.
  destruct o as [ | | |d]; try reflexivity.
  cbn [embed_outcome embed_data default]. destruct (redirect d) eqn:Hr.
  - cbn [Raw.k_currentSection embed_suspended].
    destruct (find_section (d_section d)) as [new|]; [|reflexivity].
    unfold embed_state. cbn. unfold embed_data. rewrite Hr, embed_append_to. reflexivity.
  - unfold embed_state. cbn. unfold embed_data. rewrite Hr, embed_append_to. reflexivity.
Qed.

(** On states and replies of the documented shape the handler written
    over arbitrary replies is the handler of the first embedding. *)
Lemma raw_agrees_at_documented_shape (t1 t2 : str) (o : fetch_outcome) (st : AppState) :
  Raw.handleSubmit t1 (embed_outcome o) t2 (embed_state st)
  = embed_state <$> handleSubmit t1 o t2 st.
Proof.
  unfold Raw.handleSubmit, handleSubmit. rewrite embed_begin.
  destruct (handleSubmit_begin t1 st) as [[st1 [k|]]|]; cbn; [|reflexivity..].
  by rewrite embed_resume.
Qed.





